(** * sharp: the metadata task (src/metadata.cc)

    A shallow embedding of [MetadataWorker] (constructor, [Execute],
    [HandleOKCallback]) and of the [metadata] entry point, followed by the
    properties of the task that the specification states.

    The C++ code runs against three collaborators whose code is not part of
    metadata.cc: libvips (the decode engine), GLib (allocation, the atomic
    counter) and sharp's own common helpers.  Calls whose result feeds the
    data flow are modelled by what they return; calls made for their effect
    only are recorded, in program order, in a trace of events. *)

From Stdlib Require Import ZArith String Ascii List Lia.
From stdpp Require Import base option list gmap strings.

Local Open Scope string_scope.
Local Open Scope list_scope.
Local Open Scope Z_scope.

(** ** Machine integers *)

(** Conversion to [uint32_t]: reduction modulo 2^32. *)
Definition to_uint32 (z : Z) : Z := z mod 2 ^ 32.

(** Conversion to [int] (32 bits, two's complement). *)
Definition to_int (z : Z) : Z := (z + 2 ^ 31) mod 2 ^ 32 - 2 ^ 31.

(** ** C strings *)

(** The characters the reader of a C string sees: those before the first NUL.
    [std::string::append] and [Nan::Error], applied to a pointer to
    characters, both read their argument this way. *)
Fixpoint c_str (s : string) : string :=
  match s with
  | EmptyString => EmptyString
  | String c s' => if Ascii.eqb c Ascii.zero then EmptyString else String c (c_str s')
  end.

(** [std::string::empty()]. *)
Definition empty (s : string) : bool :=
  match s with EmptyString => true | String _ _ => false end.

(** ** The decode engine (libvips) *)

(** [vips::VError]: the exception the decode engine raises. *)
Record VError := { message : string }.

(** [err.what()] hands out the message as a C string. *)
Definition what (err : VError) : string := c_str (message err).

Inductive VipsAccess := VIPS_ACCESS_RANDOM | VIPS_ACCESS_SEQUENTIAL.

Module vips.

(** An opened image handle, as the answers it gives to the header queries
    metadata.cc makes: [image.width()], [image.height()],
    [image.interpretation()], [image.bands()], and for the two blob fields
    [VIPS_META_EXIF_NAME] and [VIPS_META_ICC_NAME] either [None]
    ([get_typeof] is not [VIPS_TYPE_BLOB]) or the bytes [get_blob] points
    to, whose number is the length [get_blob] reports. *)
Record VImage := {
  width : Z;
  height : Z;
  interpretation : Z;
  bands : Z;
  exif_blob : option (list Byte.byte);
  icc_blob : option (list Byte.byte);
}.

End vips.

(** ** sharp's common helpers

    common.h / common.cc are not among the sources of this development.
    What metadata.cc uses of them is taken as a parameter: the image type
    enumeration with its [UNKNOWN] member, [ImageTypeId], the input
    descriptor with [CreateInputDescriptor] and [OpenInput], and the image
    predicates.  [vips_enum_nick] (applied to [VIPS_TYPE_INTERPRETATION]) is
    libvips's table of interpretation nicknames.

    [OpenInput] follows the specification's contract of the decode engine,
    a header-open that yields an image handle with a detected format or a
    decode failure: it either throws a [VError] ([inl]) or returns the opened
    image with the detected type ([inr]).  [CreateInputDescriptor] receives
    the vector of buffers to persist and returns it extended. *)
Class Common := {
  ImageType : Type;
  ImageType_eq_dec :: EqDecision ImageType;
  UNKNOWN : ImageType;
  ImageTypeId : ImageType → string;
  vips_enum_nick : Z → string;
  JsInput : Type;
  InputDescriptor : Type;
  CreateInputDescriptor : JsInput → list N → InputDescriptor * list N;
  OpenInput : InputDescriptor → VipsAccess → VError + (vips.VImage * ImageType);
  HasDensity : vips.VImage → bool;
  GetDensity : vips.VImage → Z;
  HasProfile : vips.VImage → bool;
  HasAlpha : vips.VImage → bool;
  ExifOrientation : vips.VImage → Z;
}.

(** ** JavaScript values handed to the caller *)

(** A [v8::Local<v8::Object>] buffer handle is identified by a number; a
    [Nan::NewBuffer (data, length, FreeCallback, nullptr)] value refers to the
    block [data] of the C heap, of which it takes ownership. *)
#[warnings="-register-all"]
Inductive JsValue : Type :=
| JsNull
| JsError (msg : string)
| JsString (s : string)
| JsUint32 (n : Z)
| JsBoolean (b : bool)
| JsBuffer (data : option N) (len : N)
| JsObject (props : gmap string JsValue).

(** [Nan::Set (info, key, value)]. *)
Definition Set_ (info : gmap string JsValue) (key : string) (v : JsValue)
  : gmap string JsValue := <[key := v]> info.

(** [New<v8::Uint32>(x)]: the argument is converted to [uint32_t]. *)
Definition New_Uint32 (x : Z) : JsValue := JsUint32 (to_uint32 x).

(** ** The C heap (GLib allocations) *)

(** A block holds cells; a cell that was never written is [None]. *)
Abbreviation Heap := (gmap N (list (option Byte.byte))).

(** [g_malloc (n)]: NULL for a request of zero bytes, otherwise a block that
    was not allocated before, of [n] unwritten cells. *)
Definition g_malloc_pure (n : N) (h : Heap) : option N * Heap :=
  if decide (n = 0%N) then (None, h)
  else let p := fresh (dom h) in (Some p, <[p := replicate (N.to_nat n) None]> h).

(** [memcpy (dest, src, n)]: the first [n] cells of [dest] receive the first
    [n] bytes of [src].  [dest] is NULL only after a [g_malloc] of zero bytes,
    and then [n] is 0 and nothing is copied. *)
Definition memcpy_pure (dest : option N) (src : list Byte.byte) (n : N) (h : Heap) : Heap :=
  match dest with
  | Some p =>
      alter (λ old, (Some <$> take (N.to_nat n) src) ++ drop (N.to_nat n) old) p h
  | None => h
  end.

(** ** Events *)

(** The calls made for their effect, in the order they are made. *)
Inductive Event :=
| SaveToPersistent (index : Z) (buffer : N)
| AsyncQueueWorker
| AtomicInc
| AtomicDecAndTest
| OpenInputCall
| VipsErrorClear
| VipsThreadShutdown
| GetFromPersistent (index : Z)
| DeleteInput
| DeleteBaton
| CallbackCall (argv0 argv1 : JsValue).

(** What leaves a function body other than a return: a thrown [VError], or
    the use of a [vips::VImage] that holds no image. *)
Inductive Fault :=
| Thrown (err : VError)
| NullImage.

Inductive Outcome (A : Type) :=
| Returns (a : A)
| Raises (f : Fault).
Arguments Returns {A} a.
Arguments Raises {A} f.

Section Model.

Context `{Common}.

(** ** The baton *)

(** [MetadataBaton], the record that carries the task's input and
    output, with the fields metadata.cc reads and writes.  The integer fields
    are C integers, here in [Z]; [exif] and [icc] are pointers into the C
    heap ([None] is nullptr) and the two lengths are [size_t]. *)
Record MetadataBaton := {
  input : InputDescriptor;
  format : string;
  width : Z;
  height : Z;
  space : string;
  channels : Z;
  density : Z;
  hasProfile : bool;
  hasAlpha : bool;
  orientation : Z;
  exif : option N;
  exifLength : N;
  icc : option N;
  iccLength : N;
  err : string;
}.

Definition set_input v b := Build_MetadataBaton v (format b) (width b) (height b) (space b) (channels b) (density b) (hasProfile b) (hasAlpha b) (orientation b) (exif b) (exifLength b) (icc b) (iccLength b) (err b).
Definition set_format v b := Build_MetadataBaton (input b) v (width b) (height b) (space b) (channels b) (density b) (hasProfile b) (hasAlpha b) (orientation b) (exif b) (exifLength b) (icc b) (iccLength b) (err b).
Definition set_width v b := Build_MetadataBaton (input b) (format b) v (height b) (space b) (channels b) (density b) (hasProfile b) (hasAlpha b) (orientation b) (exif b) (exifLength b) (icc b) (iccLength b) (err b).
Definition set_height v b := Build_MetadataBaton (input b) (format b) (width b) v (space b) (channels b) (density b) (hasProfile b) (hasAlpha b) (orientation b) (exif b) (exifLength b) (icc b) (iccLength b) (err b).
Definition set_space v b := Build_MetadataBaton (input b) (format b) (width b) (height b) v (channels b) (density b) (hasProfile b) (hasAlpha b) (orientation b) (exif b) (exifLength b) (icc b) (iccLength b) (err b).
Definition set_channels v b := Build_MetadataBaton (input b) (format b) (width b) (height b) (space b) v (density b) (hasProfile b) (hasAlpha b) (orientation b) (exif b) (exifLength b) (icc b) (iccLength b) (err b).
Definition set_density v b := Build_MetadataBaton (input b) (format b) (width b) (height b) (space b) (channels b) v (hasProfile b) (hasAlpha b) (orientation b) (exif b) (exifLength b) (icc b) (iccLength b) (err b).
Definition set_hasProfile v b := Build_MetadataBaton (input b) (format b) (width b) (height b) (space b) (channels b) (density b) v (hasAlpha b) (orientation b) (exif b) (exifLength b) (icc b) (iccLength b) (err b).
Definition set_hasAlpha v b := Build_MetadataBaton (input b) (format b) (width b) (height b) (space b) (channels b) (density b) (hasProfile b) v (orientation b) (exif b) (exifLength b) (icc b) (iccLength b) (err b).
Definition set_orientation v b := Build_MetadataBaton (input b) (format b) (width b) (height b) (space b) (channels b) (density b) (hasProfile b) (hasAlpha b) v (exif b) (exifLength b) (icc b) (iccLength b) (err b).
Definition set_exif v b := Build_MetadataBaton (input b) (format b) (width b) (height b) (space b) (channels b) (density b) (hasProfile b) (hasAlpha b) (orientation b) v (exifLength b) (icc b) (iccLength b) (err b).
Definition set_exifLength v b := Build_MetadataBaton (input b) (format b) (width b) (height b) (space b) (channels b) (density b) (hasProfile b) (hasAlpha b) (orientation b) (exif b) v (icc b) (iccLength b) (err b).
Definition set_icc v b := Build_MetadataBaton (input b) (format b) (width b) (height b) (space b) (channels b) (density b) (hasProfile b) (hasAlpha b) (orientation b) (exif b) (exifLength b) v (iccLength b) (err b).
Definition set_iccLength v b := Build_MetadataBaton (input b) (format b) (width b) (height b) (space b) (channels b) (density b) (hasProfile b) (hasAlpha b) (orientation b) (exif b) (exifLength b) (icc b) v (err b).
Definition set_err v b := Build_MetadataBaton (input b) (format b) (width b) (height b) (space b) (channels b) (density b) (hasProfile b) (hasAlpha b) (orientation b) (exif b) (exifLength b) (icc b) (iccLength b) v.

(** Modelled from the spec: the initial values of the baton's fields, set
    by the declaration of [MetadataBaton] in metadata.h, which is missing
    from the sources.  The specification's data model
    gives the baton of a new task no error message and the value 0, which
    reads as absent, for density, orientation and the two blob lengths.  It
    gives no initial value for the other fields: they are taken from
    [indeterminate], the content of the memory the baton is built in. *)
Definition new_MetadataBaton (indeterminate : MetadataBaton) : MetadataBaton :=
  set_err "" (set_iccLength 0%N (set_exifLength 0%N
    (set_orientation 0 (set_density 0 indeterminate)))).

(** ** State and effects *)

(** What the code reads and writes: the process-wide [sharp::counterQueue],
    the C heap, the worker's members ([baton] is the record the pointer
    refers to, [buffersToPersist] the vector), and the trace of calls made
    so far, oldest first. *)
Record State := {
  counterQueue : Z;
  heap : Heap;
  baton : MetadataBaton;
  buffersToPersist : list N;
  trace : list Event;
}.

(** Code with effects: a state transformer that returns or raises.  The
    state changes made before a fault are kept. *)
Definition M (A : Type) : Type := State → Outcome A * State.

#[export] Instance M_ret : MRet M := λ A a s, (Returns a, s).

#[export] Instance M_bind : MBind M := λ A B k m s,
  match m s with
  | (Returns a, s') => k a s'
  | (Raises f, s') => (Raises f, s')
  end.

Definition raise {A} (f : Fault) : M A := λ s, (Raises f, s).

(** [try { body } catch (vips::VError const &err) { handler }]: only a
    thrown [VError] is caught. *)
Definition try_catch {A} (body : M A) (handler : VError → M A) : M A := λ s,
  match body s with
  | (Raises (Thrown err), s') => handler err s'
  | r => r
  end.

Definition gets {A} (f : State → A) : M A := λ s, (Returns (f s), s).

Definition modify (f : State → State) : M unit := λ s, (Returns tt, f s).

Definition emit (e : Event) : M unit :=
  modify (λ s, Build_State (counterQueue s) (heap s) (baton s) (buffersToPersist s) (trace s ++ [e])).

Definition set_counterQueue (c : Z) : M unit :=
  modify (λ s, Build_State c (heap s) (baton s) (buffersToPersist s) (trace s)).

Definition set_heap (h : Heap) : M unit :=
  modify (λ s, Build_State (counterQueue s) h (baton s) (buffersToPersist s) (trace s)).

(** A write through the [baton] pointer. *)
Definition baton_upd (f : MetadataBaton → MetadataBaton) : M unit :=
  modify (λ s, Build_State (counterQueue s) (heap s) (f (baton s)) (buffersToPersist s) (trace s)).

Definition set_buffersToPersist (l : list N) : M unit :=
  modify (λ s, Build_State (counterQueue s) (heap s) (baton s) l (trace s)).

(** ** GLib and libvips calls *)

(** [g_atomic_int_inc (&sharp::counterQueue)]. *)
Definition g_atomic_int_inc : M unit :=
  c ← gets counterQueue;
  set_counterQueue (to_int (c + 1));;
  emit AtomicInc.

(** [g_atomic_int_dec_and_test (&sharp::counterQueue)]: decrements and
    tells whether the counter reached zero. *)
Definition g_atomic_int_dec_and_test : M bool :=
  c ← gets counterQueue;
  set_counterQueue (to_int (c - 1));;
  emit AtomicDecAndTest;;
  mret (bool_decide (to_int (c - 1) = 0)).

Definition g_malloc (n : N) : M (option N) :=
  h ← gets heap;
  let '(p, h') := g_malloc_pure n h in
  set_heap h';;
  mret p.

Definition memcpy (dest : option N) (src : list Byte.byte) (n : N) : M unit :=
  h ← gets heap;
  set_heap (memcpy_pure dest src n h).

Definition vips_error_clear : M unit := emit VipsErrorClear.

Definition vips_thread_shutdown : M unit := emit VipsThreadShutdown.

(** A call of [OpenInput]: the parameter's answer, thrown or returned. *)
Definition call_OpenInput (descriptor : InputDescriptor) (accessMethod : VipsAccess)
  : M (vips.VImage * ImageType) :=
  emit OpenInputCall;;
  match OpenInput descriptor accessMethod with
  | inl err => raise (Thrown err)
  | inr r => mret r
  end.

(** [std::accumulate (first, last, 0, op)]: the accumulator has the type of
    the initial value, [int], so each result of [op] is converted to it. *)
Fixpoint accumulate {A} (l : list A) (init : Z) (op : Z → A → M Z) : M Z :=
  match l with
  | [] => mret init
  | x :: l' => r ← op init x; accumulate l' (to_int r) op
  end.


(** The use of a [vips::VImage] local: a default-constructed one holds no
    image. *)
Definition deref (image : option vips.VImage) : M vips.VImage :=
  match image with
  | Some i => mret i
  | None => raise NullImage
  end.

(** ** MetadataWorker *)

(** The lambda of the constructor's [std::accumulate]: its parameter and its
    result are [uint32_t]. *)
Definition protect (index : Z) (buffer : N) : M Z :=
  let index := to_uint32 index in
  emit (SaveToPersistent index buffer);;
  mret (to_uint32 (index + 1)).

(** The constructor: the members are initialised, then each buffer is saved
    to the worker's persistent handle, keyed on its index. *)
Definition MetadataWorker (buffersToPersist_ : list N) : M unit :=
  set_buffersToPersist buffersToPersist_;;
  accumulate buffersToPersist_ 0 protect;;
  mret tt.

(** [MetadataWorker::Execute]. *)
Definition Execute : M unit :=
  (* Decrement queued task counter *)
  g_atomic_int_dec_and_test;;
  let image : option vips.VImage := None in
  let imageType : ImageType := UNKNOWN in
  '(image, imageType) ← try_catch
     (descriptor ← gets (λ s, input (baton s));
      r ← call_OpenInput descriptor VIPS_ACCESS_SEQUENTIAL;
      mret (Some r.1, r.2))
     (λ err_,
      baton_upd (λ b, set_err (err b +:+ what err_) b);;
      mret (image, imageType));
  (if decide (imageType ≠ UNKNOWN) then
     image ← deref image;
     (* Image type *)
     baton_upd (set_format (ImageTypeId imageType));;
     (* VipsImage attributes *)
     baton_upd (set_width (vips.width image));;
     baton_upd (set_height (vips.height image));;
     baton_upd (set_space (vips_enum_nick (vips.interpretation image)));;
     baton_upd (set_channels (vips.bands image));;
     (if HasDensity image
      then baton_upd (set_density (GetDensity image))
      else mret tt);;
     baton_upd (set_hasProfile (HasProfile image));;
     (* Derived attributes *)
     baton_upd (set_hasAlpha (HasAlpha image));;
     baton_upd (set_orientation (ExifOrientation image));;
     (* EXIF *)
     match vips.exif_blob image with
     | Some exif_ =>
         let exifLength_ := N.of_nat (length exif_) in
         p ← g_malloc exifLength_;
         baton_upd (set_exif p);;
         dest ← gets (λ s, exif (baton s));
         memcpy dest exif_ exifLength_;;
         baton_upd (set_exifLength exifLength_)
     | None => mret tt
     end;;
     (* ICC profile *)
     match vips.icc_blob image with
     | Some icc_ =>
         let iccLength_ := N.of_nat (length icc_) in
         p ← g_malloc iccLength_;
         baton_upd (set_icc p);;
         dest ← gets (λ s, icc (baton s));
         memcpy dest icc_ iccLength_;;
         baton_upd (set_iccLength iccLength_)
     | None => mret tt
     end
   else mret tt);;
  (* Clean up *)
  vips_error_clear;;
  vips_thread_shutdown.

(** The metadata object that [HandleOKCallback] builds when the baton holds
    no error: the statements of its else branch, in order. *)
Definition info_of (b : MetadataBaton) : gmap string JsValue :=
  let info : gmap string JsValue := ∅ in
  let info := Set_ info "format" (JsString (format b)) in
  let info := Set_ info "width" (New_Uint32 (width b)) in
  let info := Set_ info "height" (New_Uint32 (height b)) in
  let info := Set_ info "space" (JsString (space b)) in
  let info := Set_ info "channels" (New_Uint32 (channels b)) in
  let info :=
    if 0 <? density b
    then Set_ info "density" (New_Uint32 (density b)) else info in
  let info := Set_ info "hasProfile" (JsBoolean (hasProfile b)) in
  let info := Set_ info "hasAlpha" (JsBoolean (hasAlpha b)) in
  let info :=
    if 0 <? orientation b
    then Set_ info "orientation" (New_Uint32 (orientation b)) else info in
  let info :=
    if (0 <? exifLength b)%N
    then Set_ info "exif" (JsBuffer (exif b) (exifLength b)) else info in
  let info :=
    if (0 <? iccLength b)%N
    then Set_ info "icc" (JsBuffer (icc b) (iccLength b)) else info in
  info.

(** The two arguments of the callback, computed from the baton. *)
Definition argv_of (b : MetadataBaton) : JsValue * JsValue :=
  let argv := (JsNull, JsNull) in
  if negb (empty (err b))
  then (JsError (c_str (err b)), argv.2)
  else (argv.1, JsObject (info_of b)).

(** The lambda of the second [std::accumulate]: it calls
    [GetFromPersistent (index)] and drops the handle the call returns. *)
Definition fetch (index : Z) (buffer : N) : M Z :=
  let index := to_uint32 index in
  emit (GetFromPersistent index);;
  mret (to_uint32 (index + 1)).

(** [MetadataWorker::HandleOKCallback]. *)
Definition HandleOKCallback : M unit :=
  argv ← gets (λ s, argv_of (baton s));
  (* Dispose of Persistent wrapper around input Buffers *)
  bufs ← gets buffersToPersist;
  accumulate bufs 0 fetch;;
  emit DeleteInput;;
  emit DeleteBaton;;
  (* Return to JavaScript *)
  emit (CallbackCall argv.1 argv.2).

(** ** The entry point *)

(** [NAN_METHOD(metadata)], applied to the [input] attribute of its options
    argument. *)
Definition metadata (options_input : JsInput) : M unit :=
  (* Input Buffers must not undergo GC compaction during processing *)
  let buffersToPersist_ : list N := [] in
  baton_upd new_MetadataBaton;;
  (* Input *)
  let '(descriptor, buffersToPersist_) :=
    CreateInputDescriptor options_input buffersToPersist_ in
  baton_upd (set_input descriptor);;
  (* Join queue for worker thread *)
  MetadataWorker buffersToPersist_;;
  emit AsyncQueueWorker;;
  (* Increment queued task counter *)
  g_atomic_int_inc.

(** One task from submission to completion: the entry point returns, a
    worker thread runs [Execute], and the completion runs [HandleOKCallback]
    ([Execute] never sets the worker's own error message, so the completion
    never takes the error callback). *)
Definition task (options_input : JsInput) : M unit :=
  metadata options_input;;
  Execute;;
  HandleOKCallback.

(** ** Reading a run *)

(** The state a piece of code leaves, how it left, and the calls it added to
    the trace. *)
Definition final {A} (m : M A) (s : State) : State := (m s).2.

Definition outcome {A} (m : M A) (s : State) : Outcome A := (m s).1.

Definition events {A} (m : M A) (s : State) : list Event :=
  drop (length (trace s)) (trace (final m s)).

Definition add_trace (s : State) (evs : list Event) : State :=
  Build_State (counterQueue s) (heap s) (baton s) (buffersToPersist s) (trace s ++ evs).

(** The callback invocations of a trace, with their two arguments. *)
Definition callbacks (t : list Event) : list (JsValue * JsValue) :=
  omap (λ e, match e with CallbackCall a0 a1 => Some (a0, a1) | _ => None end) t.

(** The indices passed to [SaveToPersistent], and those passed to
    [GetFromPersistent], in call order. *)
Definition saved (t : list Event) : list Z :=
  omap (λ e, match e with SaveToPersistent i _ => Some i | _ => None end) t.

Definition fetched (t : list Event) : list Z :=
  omap (λ e, match e with GetFromPersistent i => Some i | _ => None end) t.

(** The worker's persistent handle as a trace of calls leaves it: an object
    whose property [index] is set by [SaveToPersistent (index, buffer)].
    [GetFromPersistent (index)] reads that property and sets nothing, and
    metadata.cc makes no call that removes a property or resets the
    handle. *)
Definition persistent_step (m : gmap Z N) (e : Event) : gmap Z N :=
  match e with
  | SaveToPersistent index buffer => <[index := buffer]> m
  | _ => m
  end.

Definition persistent_from (m : gmap Z N) (t : list Event) : gmap Z N :=
  foldl persistent_step m t.

Definition persistent (t : list Event) : gmap Z N := persistent_from ∅ t.

Definition is_inc (e : Event) : bool :=
  match e with AtomicInc => true | _ => false end.

Definition is_dec (e : Event) : bool :=
  match e with AtomicDecAndTest => true | _ => false end.

(** The indices that a [std::accumulate] over [n] elements passes to its
    lambda when it starts from [init]. *)
Definition indices (init : Z) (n : nat) : list Z :=
  (λ k : nat, to_uint32 (init + Z.of_nat k)) <$> seq 0 n.

(** The calls [Execute] makes for their effect. *)
Definition Execute_calls : list Event :=
  [AtomicDecAndTest; OpenInputCall; VipsErrorClear; VipsThreadShutdown].

(** The cells of block [p] all hold a byte, and these bytes are [bs]. *)
Definition holds (h : Heap) (p : N) (bs : list Byte.byte) : Prop :=
  h !! p = Some (Some <$> bs).

(** The block the task allocated for a blob, if it allocated one. *)
Definition owned (blob : option (list Byte.byte)) (p : option N) : gset N :=
  match blob, p with
  | Some (_ :: _), Some q => {[q]}
  | _, _ => ∅
  end.

(** The descriptor and the buffers to persist that [metadata] obtains for
    an input, and the answer of [OpenInput] for that descriptor. *)
Definition descriptor_of (options_input : JsInput) : InputDescriptor :=
  (CreateInputDescriptor options_input []).1.

Definition buffers_of (options_input : JsInput) : list N :=
  (CreateInputDescriptor options_input []).2.

Definition opened (options_input : JsInput) : VError + (vips.VImage * ImageType) :=
  OpenInput (descriptor_of options_input) VIPS_ACCESS_SEQUENTIAL.

(** The baton a new task hands to [Execute]. *)
Definition fresh_baton (i : JsInput) (s : State) : MetadataBaton :=
  set_input (descriptor_of i) (new_MetadataBaton (baton s)).

(** The keys a metadata object may have. *)
Definition info_keys : list string :=
  ["format"; "width"; "height"; "space"; "channels"; "density"; "hasProfile";
   "hasAlpha"; "orientation"; "exif"; "icc"].

(** ** The three stages in closed form

    What [metadata], [Execute] and [HandleOKCallback] leave, written as
    functions of the state they start in.  The lemmas [metadata_runs],
    [Execute_runs] and [HandleOKCallback_runs] show that the code computes
    them. *)

(** The pointer, the length and the heap after the copy of a blob field. *)
Definition copied (blob : option (list Byte.byte)) (old : option N * N) (h : Heap)
  : option N * N * Heap :=
  match blob with
  | Some bytes =>
      let n := N.of_nat (length bytes) in
      let '(p, h') := g_malloc_pure n h in
      (p, n, memcpy_pure p bytes n h')
  | None => (old, h)
  end.

Definition header_read (image : vips.VImage) (imageType : ImageType)
    (b : MetadataBaton) (h : Heap) : MetadataBaton * Heap :=
  let '(exif', exifLength', h1) := copied (vips.exif_blob image) (exif b, exifLength b) h in
  let '(icc', iccLength', h2) := copied (vips.icc_blob image) (icc b, iccLength b) h1 in
  ({| input := input b;
      format := ImageTypeId imageType;
      width := vips.width image;
      height := vips.height image;
      space := vips_enum_nick (vips.interpretation image);
      channels := vips.bands image;
      density := if HasDensity image then GetDensity image else density b;
      hasProfile := HasProfile image;
      hasAlpha := HasAlpha image;
      orientation := ExifOrientation image;
      exif := exif';
      exifLength := exifLength';
      icc := icc';
      iccLength := iccLength';
      err := err b |}, h2).

Definition Executed (s : State) : State :=
  let '(b, h) :=
    match OpenInput (input (baton s)) VIPS_ACCESS_SEQUENTIAL with
    | inl err_ => (set_err (err (baton s) +:+ what err_) (baton s), heap s)
    | inr (image, imageType) =>
        if decide (imageType ≠ UNKNOWN)
        then header_read image imageType (baton s) (heap s)
        else (baton s, heap s)
    end in
  {| counterQueue := to_int (counterQueue s - 1);
     heap := h;
     baton := b;
     buffersToPersist := buffersToPersist s;
     trace := trace s ++ Execute_calls |}.

Definition submitted (options_input : JsInput) (s : State) : State :=
  let '(descriptor, bufs) := CreateInputDescriptor options_input [] in
  {| counterQueue := to_int (counterQueue s + 1);
     heap := heap s;
     baton := set_input descriptor (new_MetadataBaton (baton s));
     buffersToPersist := bufs;
     trace := trace s
                ++ zip_with SaveToPersistent (indices 0 (length bufs)) bufs
                ++ [AsyncQueueWorker; AtomicInc] |}.

Definition completed (s : State) : State :=
  add_trace s
    ((GetFromPersistent <$> indices 0 (length (buffersToPersist s)))
       ++ [DeleteInput; DeleteBaton;
           CallbackCall (argv_of (baton s)).1 (argv_of (baton s)).2]).

(** ** Several tasks, and what a caller is delivered *)

(** A C++ string holds a NUL character. *)
Fixpoint has_NUL (s : string) : bool :=
  match s with
  | EmptyString => false
  | String c s' => Ascii.eqb c Ascii.zero || has_NUL s'
  end.

(** Tasks run one after another: each is submitted, executed and completed
    before the next is submitted. *)
Fixpoint tasks (l : list JsInput) : M unit :=
  match l with
  | [] => mret tt
  | i :: l' => task i;; tasks l'
  end.

(** The pair of callback arguments that corresponds to what [OpenInput]
    answers for an input: an error with the thrown message when that message
    has a character, and otherwise null and some metadata object. *)
Definition delivered (i : JsInput) (argv : JsValue * JsValue) : Prop :=
  match opened i with
  | inl e =>
      if empty (what e)
      then ∃ info, argv = (JsNull, JsObject info)
      else argv = (JsError (what e), JsNull)
  | inr _ => ∃ info, argv = (JsNull, JsObject info)
  end.

(** The keys [HandleOKCallback] sets without a condition. *)
Definition always_keys : list string :=
  ["format"; "width"; "height"; "space"; "channels"; "hasProfile"; "hasAlpha"].

Definition is_open (e : Event) : bool :=
  match e with OpenInputCall => true | _ => false end.

End Model.

(** ** A sample engine

    An instance of the parameters, to run the model on concrete tasks.  The
    input descriptor of a sample task carries the answer [OpenInput] gives
    for it, and the input object the descriptor and the buffers to persist;
    the image predicates answer from the sample's parameters. *)
Module Sample.

Inductive Kind := JPEG | PNG | NONE.

#[export] Instance Kind_eq_dec : EqDecision Kind.
Proof. solve_decision. Defined.

Definition Id (t : Kind) : string :=
  match t with JPEG => "jpeg" | PNG => "png" | NONE => "unknown" end.

Definition nick (i : Z) : string :=
  if i =? 22 then "srgb" else if i =? 1 then "b-w" else "error".

Definition Answer : Type := VError + (vips.VImage * Kind).

Definition engine (hasDensity : bool) (density_ : Z) (hasProfile_ hasAlpha_ : bool)
    (orientation_ : Z) : Common :=
  {| ImageType := Kind;
     UNKNOWN := NONE;
     ImageTypeId := Id;
     vips_enum_nick := nick;
     JsInput := Answer * list N;
     InputDescriptor := Answer;
     CreateInputDescriptor := λ i bufs, (i.1, bufs ++ i.2);
     OpenInput := λ d _, d;
     HasDensity := λ _, hasDensity;
     GetDensity := λ _, density_;
     HasProfile := λ _, hasProfile_;
     HasAlpha := λ _, hasAlpha_;
     ExifOrientation := λ _, orientation_ |}.

(** An engine for images with a density of 72, a profile, no alpha channel
    and the EXIF orientation 6. *)
Definition rich : Common := engine true 72 true false 6.

Definition photo (exif_ icc_ : option (list Byte.byte)) : vips.VImage :=
  {| vips.width := 640; vips.height := 480; vips.interpretation := 22;
     vips.bands := 3; vips.exif_blob := exif_; vips.icc_blob := icc_ |}.

Definition bytes1 : list Byte.byte := [Byte.x45; Byte.x78; Byte.x69; Byte.x66].

Definition bytes2 : list Byte.byte := [Byte.x61; Byte.x63; Byte.x73; Byte.x70; Byte.x21].

(** The state a sample task starts in: the counter at [c], one foreign
    block on the heap, nothing traced; the memory of the baton to be holds
    arbitrary values. *)
Definition start `{Common} (d : InputDescriptor) (c : Z) : State :=
  {| counterQueue := c;
     heap := {[ 7%N := [Some Byte.x00] ]};
     baton := {| input := d; format := "?"; width := -1; height := -1;
                 space := "?"; channels := -1; density := 99;
                 hasProfile := true; hasAlpha := true; orientation := 99;
                 exif := Some 7%N; exifLength := 99%N; icc := Some 7%N;
                 iccLength := 99%N; err := "stale" |};
     buffersToPersist := [];
     trace := [] |}.

(** Sample inputs for the engine [rich]: a JPEG with both blobs and two
    buffers to persist, a file the engine rejects, a rejection without a
    message, an opened image of no recognised type, and a JPEG whose EXIF
    blob has no bytes. *)
Definition jpeg_input : @JsInput rich :=
  (inr (photo (Some bytes1) (Some bytes2), JPEG), [11%N; 12%N]).

Definition missing_input : @JsInput rich :=
  (inl {| message := "Input file is missing" |}, [11%N]).

Definition silent_input : @JsInput rich :=
  (inl {| message := "" |}, [11%N]).

Definition unknown_input : @JsInput rich :=
  (inr (photo None None, NONE), []).

Definition empty_exif_input : @JsInput rich :=
  (inr (photo (Some []) None, JPEG), []).

(** An image with both blobs that is opened without a recognised type, and a
    rejection whose message holds a NUL. *)
Definition unknown_blobs_input : @JsInput rich :=
  (inr (photo (Some bytes1) (Some bytes2), NONE), []).

Definition cut_input : @JsInput rich :=
  (inl {| message := String "b" (String "a" (String "d" (String Ascii.zero "tail"))) |},
   []).

(** The state before any task, with the counter at 5. *)
Definition idle : @State rich := @start rich (inl {| message := "" |}) 5.

End Sample.

(** * Properties *)

(** ** Integer conversions *)

Lemma to_uint32_to_int z : to_uint32 (to_int z) = to_uint32 z.
Proof.
  unfold to_uint32, to_int.
  rewrite Zminus_mod, Zmod_mod, <- Zminus_mod.
  replace (z + 2 ^ 31 - 2 ^ 31) with z by lia. reflexivity.
Qed.

Lemma to_uint32_shift a b k :
  to_uint32 a = to_uint32 b → to_uint32 (a + k) = to_uint32 (b + k).
Proof.
  unfold to_uint32. intros E.
  rewrite (Zplus_mod a), (Zplus_mod b), E. reflexivity.
Qed.

Lemma to_uint32_idemp z : to_uint32 (to_uint32 z) = to_uint32 z.
Proof. apply Zmod_mod. Qed.

Lemma to_uint32_small z : 0 ≤ z < 2 ^ 32 → to_uint32 z = z.
Proof. apply Z.mod_small. Qed.

Lemma to_int_id z : - 2 ^ 31 ≤ z < 2 ^ 31 → to_int z = z.
Proof. intros R. unfold to_int. rewrite Z.mod_small; lia. Qed.

Lemma to_int_inc_dec c : to_int (to_int (c + 1) - 1) = to_int c.
Proof.
  unfold to_int.
  replace ((c + 1 + 2 ^ 31) mod 2 ^ 32 - 2 ^ 31 - 1 + 2 ^ 31)
    with ((c + 1 + 2 ^ 31) mod 2 ^ 32 - 1) by lia.
  rewrite Zminus_mod_idemp_l. do 2 f_equal. lia.
Qed.

Lemma to_int_dec_inc c : to_int (to_int (c - 1) + 1) = to_int c.
Proof.
  unfold to_int.
  replace ((c - 1 + 2 ^ 31) mod 2 ^ 32 - 2 ^ 31 + 1 + 2 ^ 31)
    with ((c - 1 + 2 ^ 31) mod 2 ^ 32 + 1) by lia.
  rewrite Zplus_mod_idemp_l. do 2 f_equal. lia.
Qed.

(** ** C strings *)

Lemma c_str_idemp s : c_str (c_str s) = c_str s.
Proof.
  induction s as [|c s IH]; [reflexivity|]. cbn.
  destruct (Ascii.eqb c Ascii.zero) eqn:E; [reflexivity|].
  cbn. rewrite E, IH. reflexivity.
Qed.

Lemma empty_true s : empty s = true ↔ s = "".
Proof. destruct s; cbn; split; congruence. Qed.

Lemma empty_false s : empty s = false ↔ s ≠ "".
Proof. destruct s; cbn; split; congruence. Qed.

(** ** Indices *)

Lemma indices_S init n : indices init (S n) = to_uint32 init :: indices (init + 1) n.
Proof.
  unfold indices. cbn [seq fmap list_fmap]. f_equal.
  - f_equal. lia.
  - rewrite <- seq_shift, <- list_fmap_compose. apply list_fmap_ext.
    intros _ k _. cbn. f_equal. lia.
Qed.

Lemma indices_ext a b n : to_uint32 a = to_uint32 b → indices a n = indices b n.
Proof.
  intros E. unfold indices. apply list_fmap_ext. intros _ k _.
  by apply to_uint32_shift.
Qed.

Lemma length_indices init n : length (indices init n) = n.
Proof. unfold indices. by rewrite length_fmap, length_seq. Qed.

(** As long as the vector has at most 2^32 elements the indices are the
    positions. *)
Lemma indices_positions n :
  Z.of_nat n ≤ 2 ^ 32 → indices 0 n = Z.of_nat <$> seq 0 n.
Proof.
  intros B. unfold indices. apply list_fmap_ext. intros j k Hk.
  apply lookup_seq in Hk as [-> Hk]. cbn. apply to_uint32_small. lia.
Qed.

(** ** Traces *)

Lemma zip_with_const_l {A B C} (f : A → C) (l : list A) (k : list B) :
  length l = length k → zip_with (λ a _, f a) l k = f <$> l.
Proof.
  revert k. induction l as [|a l IH]; intros [|b k] E; cbn in *; try congruence.
  f_equal. apply IH. congruence.
Qed.

Lemma saved_saves (l : list Z) (bufs : list N) :
  length l = length bufs → saved (zip_with SaveToPersistent l bufs) = l.
Proof.
  revert bufs. induction l as [|a l IH]; intros [|b bufs] E; cbn in *; try congruence.
  unfold saved in *. cbn. f_equal. apply IH. congruence.
Qed.

Lemma fetched_saves (l : list Z) (bufs : list N) :
  fetched (zip_with SaveToPersistent l bufs) = [].
Proof. revert bufs. induction l as [|a l IH]; intros [|b bufs]; cbn; auto. Qed.

Lemma fetched_gets (l : list Z) : fetched (GetFromPersistent <$> l) = l.
Proof. induction l as [|a l IH]; [done|]. unfold fetched in *. cbn. by f_equal. Qed.

Lemma saved_gets (l : list Z) : saved (GetFromPersistent <$> l) = [].
Proof. induction l as [|a l IH]; cbn; auto. Qed.

Lemma callbacks_saves (l : list Z) (bufs : list N) :
  callbacks (zip_with SaveToPersistent l bufs) = [].
Proof. revert bufs. induction l as [|a l IH]; intros [|b bufs]; cbn; auto. Qed.

Lemma callbacks_gets (l : list Z) : callbacks (GetFromPersistent <$> l) = [].
Proof. induction l as [|a l IH]; cbn; auto. Qed.

Lemma filter_saves (P : Event → bool) (l : list Z) (bufs : list N) :
  (∀ i b, P (SaveToPersistent i b) = false) →
  List.filter P (zip_with SaveToPersistent l bufs) = [].
Proof.
  intros HP. revert bufs.
  induction l as [|a l IH]; intros [|b bufs]; cbn; try done.
  by rewrite HP.
Qed.

Lemma filter_gets (P : Event → bool) (l : list Z) :
  (∀ i, P (GetFromPersistent i) = false) →
  List.filter P (GetFromPersistent <$> l) = [].
Proof.
  intros HP. induction l as [|a l IH]; cbn; [done|]. by rewrite HP.
Qed.

Lemma callbacks_app t1 t2 : callbacks (t1 ++ t2) = callbacks t1 ++ callbacks t2.
Proof. apply omap_app. Qed.

Lemma persistent_from_app m t1 t2 :
  persistent_from m (t1 ++ t2) = persistent_from (persistent_from m t1) t2.
Proof. apply foldl_app. Qed.

Lemma persistent_from_gets m (l : list Z) :
  persistent_from m (GetFromPersistent <$> l) = m.
Proof. induction l as [|a l IH]; [done|]. exact IH. Qed.

Lemma persistent_from_saves_other (idx : list Z) : ∀ m (bufs : list N) j,
  j ∉ idx → persistent_from m (zip_with SaveToPersistent idx bufs) !! j = m !! j.
Proof.
  induction idx as [|a idx IH]; intros m [|b bufs] j Hj; try done.
  apply not_elem_of_cons in Hj as [Ha Hj].
  change (persistent_from (<[a:=b]> m) (zip_with SaveToPersistent idx bufs) !! j = m !! j).
  rewrite IH by done. by apply lookup_insert_ne.
Qed.

(** With pairwise distinct indices, each buffer is held under its index once
    all have been saved. *)
Lemma persistent_from_saves_lookup (idx : list Z) : ∀ m (bufs : list N) k j b,
  NoDup idx → idx !! k = Some j → bufs !! k = Some b →
  persistent_from m (zip_with SaveToPersistent idx bufs) !! j = Some b.
Proof.
  induction idx as [|a idx IH]; intros m [|b0 bufs] k j b ND Hi Hb; try done.
  apply NoDup_cons in ND as [Ha ND].
  change (persistent_from (<[a:=b0]> m) (zip_with SaveToPersistent idx bufs) !! j = Some b).
  destruct k as [|k]; cbn in Hi, Hb.
  - injection Hi as ->. injection Hb as ->.
    rewrite persistent_from_saves_other by done. apply lookup_insert_eq.
  - by apply (IH _ _ k).
Qed.

Lemma indices_lookup n k :
  Z.of_nat n ≤ 2 ^ 32 → (k < n)%nat → indices 0 n !! k = Some (Z.of_nat k).
Proof.
  intros B L. rewrite indices_positions by done.
  rewrite list_lookup_fmap, lookup_seq_lt by done. reflexivity.
Qed.

Lemma NoDup_indices n : Z.of_nat n ≤ 2 ^ 32 → NoDup (indices 0 n).
Proof.
  intros B. rewrite indices_positions by done.
  apply NoDup_fmap; [apply Nat2Z.inj'|apply NoDup_seq].
Qed.

(** ** The heap *)

Lemma fresh_block (h : Heap) : fresh (dom h) ∉ dom h.
Proof. apply is_fresh. Qed.

(** ** The metadata object *)

Section Object.

Context `{Common}.

Lemma info_lookups b :
  info_of b !! "format" = Some (JsString (format b))
  ∧ info_of b !! "width" = Some (New_Uint32 (width b))
  ∧ info_of b !! "height" = Some (New_Uint32 (height b))
  ∧ info_of b !! "space" = Some (JsString (space b))
  ∧ info_of b !! "channels" = Some (New_Uint32 (channels b))
  ∧ info_of b !! "hasProfile" = Some (JsBoolean (hasProfile b))
  ∧ info_of b !! "hasAlpha" = Some (JsBoolean (hasAlpha b))
  ∧ info_of b !! "density"
      = (if 0 <? density b then Some (New_Uint32 (density b)) else None)
  ∧ info_of b !! "orientation"
      = (if 0 <? orientation b then Some (New_Uint32 (orientation b)) else None)
  ∧ info_of b !! "exif"
      = (if (0 <? exifLength b)%N then Some (JsBuffer (exif b) (exifLength b)) else None)
  ∧ info_of b !! "icc"
      = (if (0 <? iccLength b)%N then Some (JsBuffer (icc b) (iccLength b)) else None).
Proof.
  unfold info_of, Set_.
  destruct (0 <? density b), (0 <? orientation b), (0 <? exifLength b)%N,
    (0 <? iccLength b)%N;
  repeat split; simplify_map_eq; done.
Qed.

Lemma info_no_other_key b k : is_Some (info_of b !! k) → k ∈ info_keys.
Proof.
  unfold info_of, Set_, info_keys.
  destruct (0 <? density b), (0 <? orientation b), (0 <? exifLength b)%N,
    (0 <? iccLength b)%N; intros [v Hv];
  repeat (apply lookup_insert_Some in Hv as [[<- _]|[_ Hv]]; [repeat constructor|]);
  by rewrite lookup_empty in Hv.
Qed.

Lemma is_Some_if {A} (c : bool) (x : A) : is_Some (if c then Some x else None) ↔ c = true.
Proof. destruct c; split; first [done | by intros []]. Qed.

Lemma argv_of_error b : err b ≠ "" → argv_of b = (JsError (c_str (err b)), JsNull).
Proof. intros E. unfold argv_of. by apply empty_false in E as ->. Qed.

Lemma argv_of_result b : err b = "" → argv_of b = (JsNull, JsObject (info_of b)).
Proof. intros E. unfold argv_of. by apply empty_true in E as ->. Qed.

End Object.

(** ** The stages compute their closed forms *)

Section Stages.

Context `{Common}.

Ltac unfold_M :=
  unfold mbind, M_bind, mret, M_ret, try_catch, raise, emit, baton_upd,
    set_heap, set_counterQueue, set_buffersToPersist, gets, modify in *.

Lemma add_trace_nil s : add_trace s [] = s.
Proof. destruct s. unfold add_trace. cbn. by rewrite app_nil_r. Qed.

(** A [std::accumulate] whose lambda makes one call per element and counts
    in [uint32_t] adds these calls to the trace and changes nothing else. *)
Lemma accumulate_calls (ev : Z → N → Event) (l : list N) : ∀ (init : Z) (s : State),
  ∃ r, accumulate l init
         (λ index buffer, emit (ev (to_uint32 index) buffer);;
                          mret (to_uint32 (to_uint32 index + 1))) s
       = (Returns r, add_trace s (zip_with ev (indices init (length l)) l)).
Proof.
  induction l as [|x l IH]; intros init s.
  - exists init. cbn. by rewrite add_trace_nil.
  - cbn [accumulate length]. rewrite indices_S. cbn [zip_with].
    destruct (IH (to_int (to_uint32 (to_uint32 init + 1)))
                 (add_trace s [ev (to_uint32 init) x])) as [r Hr].
    exists r. unfold_M. cbn. cbn in Hr.
    unfold add_trace in *. cbn in *. rewrite Hr. do 2 f_equal.
    rewrite <- app_assoc. cbn. do 3 f_equal.
    apply indices_ext. rewrite to_uint32_to_int, to_uint32_idemp.
    apply (to_uint32_shift _ _ 1), to_uint32_idemp.
Qed.

(** [metadata] returns, and leaves [submitted]. *)
Lemma metadata_runs i s : metadata i s = (Returns tt, submitted i s).
Proof.
  unfold metadata, submitted, MetadataWorker, g_atomic_int_inc.
  destruct (CreateInputDescriptor i []) as [d bufs].
  unfold mbind at 1 2 3. unfold M_bind at 1 2 3. unfold_M. cbn.
  match goal with |- context [accumulate bufs 0 protect ?s0] =>
    destruct (accumulate_calls SaveToPersistent bufs 0 s0) as [r Hr] end.
  unfold protect. cbn in Hr. unfold_M. rewrite Hr. cbn.
  rewrite <- !app_assoc; reflexivity.
Qed.

(** [Execute] returns, and leaves [Executed]. *)
Lemma Execute_runs s : Execute s = (Returns tt, Executed s).
Proof.
  unfold Execute, Executed, header_read, copied, g_atomic_int_dec_and_test,
    call_OpenInput, vips_error_clear, vips_thread_shutdown, deref, g_malloc,
    memcpy, Execute_calls.
  unfold_M. cbn.
  destruct (OpenInput _ _) as [e|[img ty]]; cbn.
  { destruct (decide (UNKNOWN ≠ UNKNOWN)); [congruence|].
    cbn. rewrite <- !app_assoc; reflexivity. }
  destruct (decide (ty ≠ UNKNOWN)); cbn; [|rewrite <- !app_assoc; reflexivity].
  destruct (HasDensity img); cbn;
    destruct (vips.exif_blob img) as [ex|]; cbn;
    try destruct (g_malloc_pure (N.of_nat (length ex)) (heap s)) as [pe h1]; cbn;
    destruct (vips.icc_blob img) as [ic|]; cbn;
    try destruct (g_malloc_pure (N.of_nat (length ic)) _) as [pi h2]; cbn;
    rewrite <- !app_assoc; reflexivity.
Qed.

(** [HandleOKCallback] returns, and leaves [completed]. *)
Lemma HandleOKCallback_runs s : HandleOKCallback s = (Returns tt, completed s).
Proof.
  unfold HandleOKCallback, completed.
  unfold mbind at 1 2 3. unfold M_bind at 1 2 3. unfold gets at 1 2. cbn.
  destruct (accumulate_calls (λ i _, GetFromPersistent i) (buffersToPersist s) 0 s)
    as [r Hr].
  unfold fetch. cbn in Hr. rewrite Hr. unfold_M. cbn.
  unfold add_trace. cbn. do 2 f_equal. rewrite <- !app_assoc. cbn. f_equal.
  rewrite zip_with_const_l; [done|]. apply length_indices.
Qed.

(** The whole task returns; its final state is the composition of the three
    stages. *)
Lemma task_runs i s : task i s = (Returns tt, completed (Executed (submitted i s))).
Proof.
  unfold task. unfold mbind, M_bind.
  by rewrite metadata_runs, Execute_runs, HandleOKCallback_runs.
Qed.

(** The two counter operations in the other order: a worker that starts
    before the submission has incremented. *)
Lemma counter_dec_then_inc s :
  counterQueue (final (g_atomic_int_dec_and_test;; g_atomic_int_inc) s)
    = to_int (counterQueue s).
Proof.
  unfold final, g_atomic_int_dec_and_test, g_atomic_int_inc. unfold_M. cbn.
  apply to_int_dec_inc.
Qed.

Lemma final_task i s : final (task i) s = completed (Executed (submitted i s)).
Proof. unfold final. by rewrite task_runs. Qed.

Lemma final_Execute s : final Execute s = Executed s.
Proof. unfold final. by rewrite Execute_runs. Qed.

Lemma final_metadata i s : final (metadata i) s = submitted i s.
Proof. unfold final. by rewrite metadata_runs. Qed.

Lemma final_HandleOKCallback s : final HandleOKCallback s = completed s.
Proof. unfold final. by rewrite HandleOKCallback_runs. Qed.

Lemma final_task_stages i s :
  final (task i) s = final HandleOKCallback (final Execute (final (metadata i) s)).
Proof.
  by rewrite final_task, final_HandleOKCallback, final_Execute, final_metadata.
Qed.

Lemma outcome_Execute s : outcome Execute s = Returns tt.
Proof. unfold outcome. by rewrite Execute_runs. Qed.

Lemma outcome_HandleOKCallback s : outcome HandleOKCallback s = Returns tt.
Proof. unfold outcome. by rewrite HandleOKCallback_runs. Qed.

Lemma outcome_task i s : outcome (task i) s = Returns tt.
Proof. unfold outcome. by rewrite task_runs. Qed.

(** *** What [submitted] holds *)

Lemma baton_submitted i s : baton (submitted i s) = fresh_baton i s.
Proof.
  unfold submitted, fresh_baton, descriptor_of.
  by destruct (CreateInputDescriptor i []).
Qed.

Lemma buffers_submitted i s : buffersToPersist (submitted i s) = buffers_of i.
Proof.
  unfold submitted, buffers_of. by destruct (CreateInputDescriptor i []).
Qed.

Lemma heap_submitted i s : heap (submitted i s) = heap s.
Proof. unfold submitted. by destruct (CreateInputDescriptor i []). Qed.

Lemma counter_submitted i s : counterQueue (submitted i s) = to_int (counterQueue s + 1).
Proof. unfold submitted. by destruct (CreateInputDescriptor i []). Qed.

Lemma trace_submitted i s :
  trace (submitted i s) =
    trace s ++ zip_with SaveToPersistent (indices 0 (length (buffers_of i))) (buffers_of i)
            ++ [AsyncQueueWorker; AtomicInc].
Proof.
  unfold submitted, buffers_of. by destruct (CreateInputDescriptor i []).
Qed.

Lemma opened_submitted i s :
  OpenInput (input (baton (submitted i s))) VIPS_ACCESS_SEQUENTIAL = opened i.
Proof. by rewrite baton_submitted. Qed.

(** *** What [Executed] holds *)

Lemma buffers_Executed s : buffersToPersist (Executed s) = buffersToPersist s.
Proof. unfold Executed. by destruct (match OpenInput _ _ with inl _ => _ | inr _ => _ end). Qed.

Lemma counter_Executed s : counterQueue (Executed s) = to_int (counterQueue s - 1).
Proof. unfold Executed. by destruct (match OpenInput _ _ with inl _ => _ | inr _ => _ end). Qed.

Lemma trace_Executed s : trace (Executed s) = trace s ++ Execute_calls.
Proof. unfold Executed. by destruct (match OpenInput _ _ with inl _ => _ | inr _ => _ end). Qed.

Lemma Executed_thrown s e :
  OpenInput (input (baton s)) VIPS_ACCESS_SEQUENTIAL = inl e →
  baton (Executed s) = set_err (err (baton s) +:+ what e) (baton s)
  ∧ heap (Executed s) = heap s.
Proof. intros E. unfold Executed. by rewrite E. Qed.

Lemma Executed_unknown s img :
  OpenInput (input (baton s)) VIPS_ACCESS_SEQUENTIAL = inr (img, UNKNOWN) →
  baton (Executed s) = baton s ∧ heap (Executed s) = heap s.
Proof.
  intros E. unfold Executed. rewrite E.
  by destruct (decide (UNKNOWN ≠ UNKNOWN)).
Qed.

Lemma Executed_known s img ty :
  OpenInput (input (baton s)) VIPS_ACCESS_SEQUENTIAL = inr (img, ty) →
  ty ≠ UNKNOWN →
  (baton (Executed s), heap (Executed s)) = header_read img ty (baton s) (heap s).
Proof.
  intros E U. unfold Executed. rewrite E.
  destruct (decide (ty ≠ UNKNOWN)); [|done].
  by destruct (header_read img ty (baton s) (heap s)).
Qed.

(** The fields [header_read] takes from the image, and those it keeps. *)
Lemma header_read_fields img ty b h :
  let b' := (header_read img ty b h).1 in
  format b' = ImageTypeId ty
  ∧ width b' = vips.width img
  ∧ height b' = vips.height img
  ∧ density b' = (if HasDensity img then GetDensity img else density b)
  ∧ err b' = err b.
Proof.
  unfold header_read.
  destruct (copied (vips.exif_blob img) _ h) as [[? ?] h1].
  by destruct (copied (vips.icc_blob img) _ h1) as [[? ?] ?].
Qed.

(** *** The copy of a blob *)

Lemma copied_nonempty bs old (h : Heap) :
  bs ≠ [] →
  copied (Some bs) old h
    = (Some (fresh (dom h)), N.of_nat (length bs), <[fresh (dom h) := Some <$> bs]> h).
Proof.
  intros NE. unfold copied, g_malloc_pure.
  destruct (decide (N.of_nat (length bs) = 0%N)) as [Z0|_].
  { destruct bs; [done|]. cbn in Z0. lia. }
  unfold memcpy_pure. rewrite alter_insert_eq, Nat2N.id.
  rewrite take_ge by done. rewrite drop_ge by (by rewrite length_replicate).
  by rewrite app_nil_r.
Qed.

Lemma copied_empty old (h : Heap) : copied (Some []) old h = (None, 0%N, h).
Proof. reflexivity. Qed.

(** What the copy of one blob field does to the heap, for a field whose
    length was 0 before. *)
Lemma copied_spec blob (p0 : option N) (h : Heap) p n h' :
  copied blob (p0, 0%N) h = (p, n, h') →
  (∀ bs, blob = Some bs → bs ≠ [] →
     ∃ q, p = Some q ∧ (q ∉ dom h) ∧ holds h' q bs ∧ n = N.of_nat (length bs))
  ∧ (blob = None ∨ blob = Some [] → n = 0%N ∧ h' = h)
  ∧ dom h' = dom h ∪ owned blob p
  ∧ (owned blob p ## dom h)
  ∧ (∀ q, q ∈ dom h → h' !! q = h !! q).
Proof.
  intros C. pose proof (fresh_block h) as F.
  destruct blob as [[|x l]|].
  - rewrite copied_empty in C. injection C as <- <- <-.
    split; [|split; [|split; [|split]]]; try done; cbn;
      first [by intros bs [= <-] | by rewrite union_empty_r_L | apply disjoint_empty_l].
  - rewrite copied_nonempty in C by done. injection C as <- <- <-.
    split; [|split; [|split; [|split]]].
    + intros bs [= <-] _. exists (fresh (dom h)).
      repeat split; try done. unfold holds. by rewrite lookup_insert_eq.
    + intros [|]; done.
    + cbn. rewrite dom_insert_L. apply (comm_L (∪)).
    + cbn. by apply disjoint_singleton_l.
    + intros q Hq. apply lookup_insert_ne. by intros <-.
  - cbn in C. injection C as <- <- <-.
    split; [|split; [|split; [|split]]]; try done; cbn;
      first [by rewrite union_empty_r_L | apply disjoint_empty_l].
Qed.

(** *** The calls a stage adds to the trace *)

Lemma events_metadata i s :
  events (metadata i) s =
    zip_with SaveToPersistent (indices 0 (length (buffers_of i))) (buffers_of i)
      ++ [AsyncQueueWorker; AtomicInc].
Proof.
  unfold events. rewrite final_metadata, trace_submitted. apply drop_app_length.
Qed.

Lemma events_Execute s : events Execute s = Execute_calls.
Proof.
  unfold events. rewrite final_Execute, trace_Executed. apply drop_app_length.
Qed.

Lemma events_HandleOKCallback s :
  events HandleOKCallback s =
    (GetFromPersistent <$> indices 0 (length (buffersToPersist s)))
      ++ [DeleteInput; DeleteBaton;
          CallbackCall (argv_of (baton s)).1 (argv_of (baton s)).2].
Proof.
  unfold events. rewrite final_HandleOKCallback. unfold completed, add_trace. cbn.
  apply drop_app_length.
Qed.

Lemma events_task i s :
  events (task i) s =
    zip_with SaveToPersistent (indices 0 (length (buffers_of i))) (buffers_of i)
      ++ [AsyncQueueWorker; AtomicInc]
      ++ Execute_calls
      ++ (GetFromPersistent <$> indices 0 (length (buffers_of i)))
      ++ [DeleteInput; DeleteBaton;
          CallbackCall (argv_of (baton (final (task i) s))).1
                       (argv_of (baton (final (task i) s))).2].
Proof.
  unfold events. rewrite final_task. unfold completed, add_trace. cbn.
  rewrite trace_Executed, trace_submitted, buffers_Executed, buffers_submitted.
  rewrite <- !app_assoc. apply drop_app_length.
Qed.

Lemma callbacks_task i s :
  callbacks (events (task i) s) = [argv_of (baton (final (task i) s))].
Proof.
  rewrite events_task. unfold callbacks. rewrite !omap_app.
  fold callbacks. rewrite callbacks_saves, callbacks_gets. cbn.
  by destruct (argv_of _).
Qed.

Lemma saved_task i s :
  saved (events (task i) s) = indices 0 (length (buffers_of i)).
Proof.
  rewrite events_task. unfold saved. rewrite !omap_app. fold saved.
  rewrite saved_saves by apply length_indices.
  rewrite saved_gets. apply app_nil_r.
Qed.

Lemma fetched_task i s :
  fetched (events (task i) s) = indices 0 (length (buffers_of i)).
Proof.
  rewrite events_task. unfold fetched. rewrite !omap_app. fold fetched.
  rewrite fetched_saves, fetched_gets. cbn. apply app_nil_r.
Qed.

(** *** The baton and the heap of a finished task *)

Lemma task_thrown i s e :
  opened i = inl e →
  baton (final (task i) s) = set_err (what e) (fresh_baton i s)
  ∧ heap (final (task i) s) = heap s.
Proof.
  intros E. rewrite final_task. change (baton (completed ?x)) with (baton x).
  change (heap (completed ?x)) with (heap x).
  rewrite <- opened_submitted with (s := s) in E.
  destruct (Executed_thrown _ _ E) as [-> ->].
  by rewrite baton_submitted, heap_submitted.
Qed.

Lemma task_unknown i s img :
  opened i = inr (img, UNKNOWN) →
  baton (final (task i) s) = fresh_baton i s ∧ heap (final (task i) s) = heap s.
Proof.
  intros E. rewrite final_task. change (baton (completed ?x)) with (baton x).
  change (heap (completed ?x)) with (heap x).
  rewrite <- opened_submitted with (s := s) in E.
  destruct (Executed_unknown _ _ E) as [-> ->].
  by rewrite baton_submitted, heap_submitted.
Qed.

Lemma task_known i s img ty :
  opened i = inr (img, ty) → ty ≠ UNKNOWN →
  (baton (final (task i) s), heap (final (task i) s))
    = header_read img ty (fresh_baton i s) (heap s).
Proof.
  intros E U. rewrite final_task. change (baton (completed ?x)) with (baton x).
  change (heap (completed ?x)) with (heap x).
  rewrite <- opened_submitted with (s := s) in E.
  rewrite (Executed_known _ _ _ E U).
  by rewrite baton_submitted, heap_submitted.
Qed.

Lemma task_known_baton i s img ty :
  opened i = inr (img, ty) → ty ≠ UNKNOWN →
  baton (final (task i) s) = (header_read img ty (fresh_baton i s) (heap s)).1.
Proof. intros E U. by rewrite <- (task_known i s img ty E U). Qed.

(** The error string of a finished task is what [Execute] appended to the
    empty string it started from. *)
Lemma err_task i s :
  err (baton (final (task i) s))
    = match opened i with inl e => what e | inr _ => "" end.
Proof.
  destruct (opened i) as [e|[img ty]] eqn:E.
  - by destruct (task_thrown i s e E) as [-> _].
  - destruct (decide (ty = UNKNOWN)) as [->|U].
    + by destruct (task_unknown i s img E) as [-> _].
    + rewrite (task_known_baton i s img ty E U).
      by destruct (header_read_fields img ty (fresh_baton i s) (heap s))
        as (_ & _ & _ & _ & ->).
Qed.

(** It holds no NUL, so reading it as a C string yields all of it. *)
Lemma c_str_err_task i s :
  c_str (err (baton (final (task i) s))) = err (baton (final (task i) s)).
Proof.
  rewrite err_task. destruct (opened i); [apply c_str_idemp|done].
Qed.

End Stages.

(** * The claims *)

Section Claims.

Context `{Common}.

(** C1, as the code has it.  When [OpenInput] throws, the baton ends with the
    message as its error and with format, width and height as the new baton
    had them.  When [OpenInput] returns a type other than [UNKNOWN], the
    baton ends without error and with the format, width and height of the
    opened image.  When [OpenInput] returns [UNKNOWN] without throwing,
    nothing records an error and nothing is read: the baton ends with
    neither, and the callback receives null and the object built from the
    untouched baton.  An error and fields written by this task never occur
    together. *)
Theorem error_or_header i s :
  let b0 := fresh_baton i s in
  let b := baton (final (task i) s) in
  let untouched :=
    format b = format b0 ∧ width b = width b0 ∧ height b = height b0 in
  (∀ e, opened i = inl e → err b = what e ∧ untouched)
  ∧ (∀ img ty, opened i = inr (img, ty) → ty ≠ UNKNOWN →
       err b = "" ∧ format b = ImageTypeId ty
       ∧ width b = vips.width img ∧ height b = vips.height img)
  ∧ (∀ img, opened i = inr (img, UNKNOWN) →
       err b = "" ∧ untouched
       ∧ callbacks (events (task i) s) = [(JsNull, JsObject (info_of b))])
  ∧ (err b ≠ "" → untouched).
Proof.
  intros b0 b untouched.
  assert (T : ∀ e, opened i = inl e → err b = what e ∧ untouched).
  { intros e E. unfold untouched, b.
    by destruct (task_thrown i s e E) as [-> _]. }
  split; [exact T|]. split; [|split].
  - intros img ty E U. unfold b. rewrite (task_known_baton i s img ty E U).
    by destruct (header_read_fields img ty (fresh_baton i s) (heap s))
      as (-> & -> & -> & _ & ->).
  - intros img E. destruct (task_unknown i s img E) as [B _]. fold b b0 in B.
    unfold untouched. rewrite callbacks_task. fold b.
    rewrite argv_of_result; by rewrite B.
  - intros NE. unfold b in NE. rewrite err_task in NE.
    destruct (opened i) as [e|[img ty]] eqn:E; [|done].
    by destruct (T e).
Qed.

(** C2.  A task invokes the callback once, with two arguments of which
    exactly one is null: when the baton's [err] is not empty, an error that
    carries the stored message and nothing else, and null; otherwise null and
    the metadata object built from the baton. *)
Theorem callback_pair_exclusive i s :
  let b := baton (final (task i) s) in
  ∃ argv0 argv1,
    callbacks (events (task i) s) = [(argv0, argv1)]
    ∧ ((err b ≠ "" ∧ argv0 = JsError (err b) ∧ argv1 = JsNull)
       ∨ (err b = "" ∧ argv0 = JsNull ∧ argv1 = JsObject (info_of b)))
    ∧ (argv0 = JsNull ↔ argv1 ≠ JsNull).
Proof.
  intros b. rewrite callbacks_task. fold b.
  destruct (decide (err b = "")) as [E|E].
  - exists JsNull, (JsObject (info_of b)).
    rewrite (argv_of_result b E). split; [done|]. split; [by right|]. done.
  - exists (JsError (err b)), JsNull.
    rewrite (argv_of_error b E). unfold b at 1. rewrite c_str_err_task. fold b.
    split; [done|]. split; [by left|]. done.
Qed.

(** C3.  When [OpenInput] throws, [Execute] still returns: the exception is
    caught inside it.  The baton it leaves is the baton it found with the
    message appended to [err] and no other field written; the heap is
    untouched (no blob was copied); and the only calls made are the counter
    decrement, the open and the cleanup. *)
Theorem open_failure_recorded s e :
  OpenInput (input (baton s)) VIPS_ACCESS_SEQUENTIAL = inl e →
  outcome Execute s = Returns tt
  ∧ baton (final Execute s) = set_err (err (baton s) +:+ what e) (baton s)
  ∧ heap (final Execute s) = heap s
  ∧ events Execute s = Execute_calls.
Proof.
  intros E. rewrite final_Execute.
  destruct (Executed_thrown s e E) as [Hb Hh].
  auto using outcome_Execute, events_Execute.
Qed.

(** C4.  The metadata object always has format, width, height, space,
    channels, hasProfile and hasAlpha, with the baton's values; it has
    density, orientation, exif and icc exactly when the baton's density,
    orientation, exifLength and iccLength are positive; it has no other key.
    This object is what the callback of a task without error receives.
    [Execute] writes the baton's density only when [OpenInput] returned a
    recognised type and [HasDensity] holds of the image; in a whole task the
    density is then [GetDensity] of the image, and 0 in every other case. *)
Theorem record_fields i s :
  (∀ b,
     info_of b !! "format" = Some (JsString (format b))
     ∧ info_of b !! "width" = Some (New_Uint32 (width b))
     ∧ info_of b !! "height" = Some (New_Uint32 (height b))
     ∧ info_of b !! "space" = Some (JsString (space b))
     ∧ info_of b !! "channels" = Some (New_Uint32 (channels b))
     ∧ info_of b !! "hasProfile" = Some (JsBoolean (hasProfile b))
     ∧ info_of b !! "hasAlpha" = Some (JsBoolean (hasAlpha b))
     ∧ (is_Some (info_of b !! "density") ↔ 0 < density b)
     ∧ (is_Some (info_of b !! "orientation") ↔ 0 < orientation b)
     ∧ (is_Some (info_of b !! "exif") ↔ (0 < exifLength b)%N)
     ∧ (is_Some (info_of b !! "icc") ↔ (0 < iccLength b)%N)
     ∧ (∀ k, is_Some (info_of b !! k) → k ∈ info_keys))
  ∧ (err (baton (final (task i) s)) = "" →
     callbacks (events (task i) s)
       = [(JsNull, JsObject (info_of (baton (final (task i) s))))])
  ∧ (∀ s', density (baton (final Execute s'))
           = match OpenInput (input (baton s')) VIPS_ACCESS_SEQUENTIAL with
             | inr (img, ty) =>
                 if decide (ty ≠ UNKNOWN)
                 then if HasDensity img then GetDensity img else density (baton s')
                 else density (baton s')
             | inl _ => density (baton s')
             end)
  ∧ density (baton (final (task i) s))
      = match opened i with
        | inr (img, ty) =>
            if decide (ty ≠ UNKNOWN)
            then if HasDensity img then GetDensity img else 0
            else 0
        | inl _ => 0
        end.
Proof.
  split; [|split; [|split]].
  - intros b.
    destruct (info_lookups b)
      as (Hf & Hw & Hh & Hs & Hc & Hp & Ha & Hd & Ho & He & Hi).
    rewrite Hd, Ho, He, Hi, !is_Some_if, !Z.ltb_lt, !N.ltb_lt.
    repeat split; try done. apply info_no_other_key.
  - intros E. rewrite callbacks_task. f_equal. by apply argv_of_result.
  - intros s'. rewrite final_Execute.
    destruct (OpenInput _ _) as [e|[img ty]] eqn:E.
    + by destruct (Executed_thrown s' e E) as [-> _].
    + destruct (decide (ty ≠ UNKNOWN)) as [U|U].
      * pose proof (Executed_known s' img ty E U) as K.
        apply (f_equal fst) in K. cbn in K. rewrite K.
        by destruct (header_read_fields img ty (baton s') (heap s'))
          as (_ & _ & _ & -> & _).
      * apply dec_stable in U as ->.
        by destruct (Executed_unknown s' img E) as [-> _].
  - destruct (opened i) as [e|[img ty]] eqn:E.
    + by destruct (task_thrown i s e E) as [-> _].
    + destruct (decide (ty ≠ UNKNOWN)) as [U|U].
      * rewrite (task_known_baton i s img ty E U).
        by destruct (header_read_fields img ty (fresh_baton i s) (heap s))
          as (_ & _ & _ & -> & _).
      * apply dec_stable in U as ->.
        by destruct (task_unknown i s img E) as [-> _].
Qed.

(** The copies of a task that opens an image of a recognised type. *)
Lemma blobs_copied_known i s img ty :
  opened i = inr (img, ty) → ty ≠ UNKNOWN →
  let sf := final (task i) s in
  let b := baton sf in
  (∀ bs, vips.exif_blob img = Some bs → bs ≠ [] →
     ∃ p, exif b = Some p ∧ (p ∉ dom (heap s)) ∧ holds (heap sf) p bs
          ∧ exifLength b = N.of_nat (length bs)
          ∧ info_of b !! "exif" = Some (JsBuffer (Some p) (N.of_nat (length bs))))
  ∧ (vips.exif_blob img = None ∨ vips.exif_blob img = Some [] →
     exifLength b = 0%N ∧ info_of b !! "exif" = None)
  ∧ (∀ bs, vips.icc_blob img = Some bs → bs ≠ [] →
     ∃ p, icc b = Some p ∧ (p ∉ dom (heap s)) ∧ holds (heap sf) p bs
          ∧ iccLength b = N.of_nat (length bs)
          ∧ info_of b !! "icc" = Some (JsBuffer (Some p) (N.of_nat (length bs))))
  ∧ (vips.icc_blob img = None ∨ vips.icc_blob img = Some [] →
     iccLength b = 0%N ∧ info_of b !! "icc" = None)
  ∧ dom (heap sf)
      = dom (heap s) ∪ (owned (vips.exif_blob img) (exif b)
                        ∪ owned (vips.icc_blob img) (icc b))
  ∧ (owned (vips.exif_blob img) (exif b) ## owned (vips.icc_blob img) (icc b))
  ∧ (∀ q, q ∈ dom (heap s) → heap sf !! q = heap s !! q).
Proof.
  intros E U sf b.
  pose proof (task_known i s img ty E U) as K. fold sf in K. fold b in K.
  destruct (info_lookups b) as (_ & _ & _ & _ & _ & _ & _ & _ & _ & He & Hi).
  rewrite He, Hi. clear He Hi.
  unfold header_read in K. cbn in K.
  destruct (copied (vips.exif_blob img) _ (heap s)) as [[pe ne] h1] eqn:C1.
  destruct (copied (vips.icc_blob img) _ h1) as [[pi ni] h2] eqn:C2.
  injection K as Kb Kh. rewrite Kb, Kh. cbn. clear Kb Kh.
  apply copied_spec in C1 as (X1 & X2 & X3 & X4 & X5).
  apply copied_spec in C2 as (I1 & I2 & I3 & I4 & I5).
  split; [|split; [|split; [|split; [|split; [|split]]]]].
  - intros bs Eb NE. destruct (X1 bs Eb NE) as (q & -> & Hq & Hh & ->).
    exists q. repeat split; try done.
    + unfold holds in *. rewrite I5; [done|]. rewrite X3, Eb.
      destruct bs; [done|]. cbn. apply elem_of_union_r. by apply elem_of_singleton.
    + destruct bs; [done|]. done.
  - intros A. destruct (X2 A) as [-> _]. done.
  - intros bs Eb NE. destruct (I1 bs Eb NE) as (q & -> & Hq & Hh & ->).
    exists q. repeat split; try done.
    + intros Q. apply Hq. rewrite X3. by apply elem_of_union_l.
    + destruct bs; [done|]. done.
  - intros A. destruct (I2 A) as [-> _]. done.
  - rewrite I3, X3. by rewrite (assoc_L (∪)).
  - rewrite X3 in I4. apply disjoint_union_r in I4 as [_ I4]. by symmetry.
  - intros q Hq. rewrite I5; [by apply X5|]. rewrite X3. by apply elem_of_union_l.
Qed.

(** C5, as the code has it.  Let a task open an image of a recognised type.
    If the image has an EXIF blob of at least one byte, the baton's [exif]
    points to a block that did not exist when the task started, the block
    holds exactly the bytes of the blob, [exifLength] is their number, and
    the metadata object has an exif buffer on that block with that length.
    If the image has no EXIF blob, or one of zero bytes, [exifLength] is 0
    and the object has no exif key.  The same holds of the ICC blob.  The
    blocks the heap gained are exactly those allocated for the two blobs,
    they are two different blocks, and every block that existed before is
    unchanged: no block is allocated for an absent or empty blob.  When the
    image is opened without a recognised type, or [OpenInput] throws, nothing
    is copied whatever blobs the image carries: both lengths are 0, the heap
    is as it was and the metadata object has neither an exif nor an icc
    key. *)
Theorem blobs_copied i s :
  let sf := final (task i) s in
  let b := baton sf in
  (∀ img ty, opened i = inr (img, ty) → ty ≠ UNKNOWN →
     (∀ bs, vips.exif_blob img = Some bs → bs ≠ [] →
        ∃ p, exif b = Some p ∧ (p ∉ dom (heap s)) ∧ holds (heap sf) p bs
             ∧ exifLength b = N.of_nat (length bs)
             ∧ info_of b !! "exif" = Some (JsBuffer (Some p) (N.of_nat (length bs))))
     ∧ (vips.exif_blob img = None ∨ vips.exif_blob img = Some [] →
        exifLength b = 0%N ∧ info_of b !! "exif" = None)
     ∧ (∀ bs, vips.icc_blob img = Some bs → bs ≠ [] →
        ∃ p, icc b = Some p ∧ (p ∉ dom (heap s)) ∧ holds (heap sf) p bs
             ∧ iccLength b = N.of_nat (length bs)
             ∧ info_of b !! "icc" = Some (JsBuffer (Some p) (N.of_nat (length bs))))
     ∧ (vips.icc_blob img = None ∨ vips.icc_blob img = Some [] →
        iccLength b = 0%N ∧ info_of b !! "icc" = None)
     ∧ dom (heap sf)
         = dom (heap s) ∪ (owned (vips.exif_blob img) (exif b)
                           ∪ owned (vips.icc_blob img) (icc b))
     ∧ (owned (vips.exif_blob img) (exif b) ## owned (vips.icc_blob img) (icc b))
     ∧ (∀ q, q ∈ dom (heap s) → heap sf !! q = heap s !! q))
  ∧ ((∃ img, opened i = inr (img, UNKNOWN)) ∨ (∃ e, opened i = inl e) →
     exifLength b = 0%N ∧ iccLength b = 0%N
     ∧ info_of b !! "exif" = None ∧ info_of b !! "icc" = None
     ∧ heap sf = heap s).
Proof.
  intros sf b. split.
  - intros img ty E U. apply (blobs_copied_known i s img ty E U).
  - intros A.
    assert (B : (b = fresh_baton i s ∨ ∃ e, b = set_err (what e) (fresh_baton i s))
                ∧ heap sf = heap s).
    { destruct A as [[img E]|[e E]].
      - destruct (task_unknown i s img E) as [Hb Hh]. split; [by left|done].
      - destruct (task_thrown i s e E) as [Hb Hh]. split; [right; by exists e|done]. }
    destruct B as [B Hh].
    assert (Z : exifLength b = 0%N ∧ iccLength b = 0%N).
    { destruct B as [->|[e ->]]; done. }
    destruct Z as [Ze Zi].
    destruct (info_lookups b) as (_ & _ & _ & _ & _ & _ & _ & _ & _ & He & Hi).
    rewrite He, Hi, Ze, Zi. done.
Qed.

(** C6, as the code has it.  The submission makes one increment, as its last
    call, right after the worker has been queued; [Execute] makes one
    decrement, as its first call.  A whole task makes exactly one of each,
    and a counter that started within the range of [int] is back at its
    starting value once the task has been submitted and [Execute] has begun,
    whichever of the increment and the decrement comes first. *)
Theorem counter_once_per_task i s :
  - 2 ^ 31 ≤ counterQueue s < 2 ^ 31 →
  (∃ saves, events (metadata i) s = saves ++ [AsyncQueueWorker; AtomicInc]
          ∧ List.filter is_inc saves = [] ∧ List.filter is_dec saves = [])
  ∧ counterQueue (final (metadata i) s) = to_int (counterQueue s + 1)
  ∧ (∀ s', events Execute s'
           = AtomicDecAndTest :: [OpenInputCall; VipsErrorClear; VipsThreadShutdown]
         ∧ counterQueue (final Execute s') = to_int (counterQueue s' - 1))
  ∧ length (List.filter is_inc (events (task i) s)) = 1%nat
  ∧ length (List.filter is_dec (events (task i) s)) = 1%nat
  ∧ counterQueue (final Execute (final (metadata i) s)) = counterQueue s
  ∧ counterQueue (final (task i) s) = counterQueue s
  ∧ counterQueue (final (g_atomic_int_dec_and_test;; g_atomic_int_inc) s)
      = counterQueue s.
Proof.
  intros R.
  assert (C : counterQueue (final Execute (final (metadata i) s)) = counterQueue s).
  { rewrite final_Execute, final_metadata, counter_Executed, counter_submitted.
    rewrite to_int_inc_dec. by apply to_int_id. }
  split; [|split; [|split; [|split; [|split; [|split; [|split]]]]]].
  - exists (zip_with SaveToPersistent (indices 0 (length (buffers_of i))) (buffers_of i)).
    split; [apply events_metadata|]. split; by apply filter_saves.
  - by rewrite final_metadata, counter_submitted.
  - intros s'. split; [apply events_Execute|].
    by rewrite final_Execute, counter_Executed.
  - rewrite events_task, !List.filter_app.
    rewrite filter_saves, filter_gets by done. reflexivity.
  - rewrite events_task, !List.filter_app.
    rewrite filter_saves, filter_gets by done. reflexivity.
  - exact C.
  - by rewrite final_task_stages, final_HandleOKCallback.
  - rewrite counter_dec_then_inc. by apply to_int_id.
Qed.

(** The calls on the persistent handle: the indices saved at submission and
    the indices fetched at completion are the same list, in the same order,
    one save per buffer, each buffer under its own index, and one fetch per
    saved index.  No fetch is made by the submission or by [Execute], and no
    save is made after the submission.  Up to 2^32 buffers the indices are
    the positions 0, 1, 2, ... in the vector, hence pairwise distinct. *)
Lemma saves_match_fetches i s :
  let n := length (buffers_of i) in
  (∃ rest, events (metadata i) s
           = zip_with SaveToPersistent (indices 0 n) (buffers_of i) ++ rest
         ∧ saved rest = [] ∧ fetched rest = [])
  ∧ saved (events (metadata i) s) = indices 0 n
  ∧ fetched (events (metadata i) s) = []
  ∧ (∀ s', saved (events Execute s') = [] ∧ fetched (events Execute s') = [])
  ∧ fetched (events HandleOKCallback (final Execute (final (metadata i) s)))
      = indices 0 n
  ∧ saved (events HandleOKCallback (final Execute (final (metadata i) s))) = []
  ∧ saved (events (task i) s) = fetched (events (task i) s)
  ∧ length (saved (events (task i) s)) = n
  ∧ (Z.of_nat n ≤ 2 ^ 32 →
     saved (events (task i) s) = Z.of_nat <$> seq 0 n
     ∧ NoDup (saved (events (task i) s))).
Proof.
  intros n.
  split; [|split; [|split; [|split; [|split; [|split; [|split; [|split]]]]]]].
  - exists [AsyncQueueWorker; AtomicInc]. by rewrite events_metadata.
  - rewrite events_metadata. unfold saved. rewrite omap_app. fold saved.
    rewrite saved_saves by apply length_indices. apply app_nil_r.
  - rewrite events_metadata. unfold fetched. rewrite omap_app. fold fetched.
    by rewrite fetched_saves.
  - intros s'. by rewrite events_Execute.
  - rewrite events_HandleOKCallback, final_Execute, final_metadata,
      buffers_Executed, buffers_submitted.
    unfold fetched. rewrite omap_app. fold fetched.
    rewrite fetched_gets. apply app_nil_r.
  - rewrite events_HandleOKCallback. unfold saved. rewrite omap_app. fold saved.
    by rewrite saved_gets.
  - by rewrite saved_task, fetched_task.
  - rewrite saved_task. apply length_indices.
  - intros B. rewrite saved_task, indices_positions by done.
    split; [done|]. apply NoDup_fmap; [apply Nat2Z.inj'|apply NoDup_seq].
Qed.

(** C8.  Whatever [OpenInput] answers, [Execute] returns and the last two
    calls it made are [vips_error_clear] and [vips_thread_shutdown], in this
    order, after the decrement and the open. *)
Theorem cleanup_on_every_path s :
  outcome Execute s = Returns tt
  ∧ events Execute s
      = [AtomicDecAndTest; OpenInputCall] ++ [VipsErrorClear; VipsThreadShutdown].
Proof. split; [apply outcome_Execute | apply events_Execute]. Qed.


(** C9.  When the callback is invoked the buffers are still pinned.  The
    callback invocation is the last call of a task and its only callback
    call; before it come the fetches, the deletion of the input descriptor
    and the deletion of the baton, none of which takes anything out of the
    persistent handle: at the invocation the handle is the one the submission
    left and, up to 2^32 buffers, holds every buffer under its position. *)
Theorem pins_held_at_callback i s :
  ∃ pre a0 a1,
    events (task i) s = pre ++ [CallbackCall a0 a1]
    ∧ callbacks pre = []
    ∧ (∃ pre', pre = pre' ++ [DeleteInput; DeleteBaton])
    ∧ persistent pre = persistent (events (metadata i) s)
    ∧ (Z.of_nat (length (buffers_of i)) ≤ 2 ^ 32 →
       ∀ k b, buffers_of i !! k = Some b → persistent pre !! Z.of_nat k = Some b).
Proof.
  set (saves := zip_with SaveToPersistent (indices 0 (length (buffers_of i))) (buffers_of i)).
  set (gets := GetFromPersistent <$> indices 0 (length (buffers_of i))).
  exists (saves ++ [AsyncQueueWorker; AtomicInc] ++ Execute_calls ++ gets
            ++ [DeleteInput; DeleteBaton]),
    (argv_of (baton (final (task i) s))).1, (argv_of (baton (final (task i) s))).2.
  assert (T : persistent (saves ++ [AsyncQueueWorker; AtomicInc] ++ Execute_calls ++ gets
                            ++ [DeleteInput; DeleteBaton])
              = persistent saves).
  { unfold persistent.
    change [AsyncQueueWorker; AtomicInc] with ([AsyncQueueWorker; AtomicInc] ++ []).
    rewrite !persistent_from_app. cbn [persistent_from foldl persistent_step Execute_calls].
    unfold gets. by rewrite persistent_from_gets. }
  split; [|split; [|split; [|split]]].
  - rewrite events_task. fold saves gets. by rewrite <- !app_assoc.
  - rewrite !callbacks_app. unfold saves, gets.
    by rewrite callbacks_saves, callbacks_gets.
  - exists (saves ++ [AsyncQueueWorker; AtomicInc] ++ Execute_calls ++ gets).
    by rewrite <- !app_assoc.
  - rewrite T, events_metadata. fold saves. unfold persistent.
    by rewrite persistent_from_app.
  - intros B k b Hb. rewrite T.
    apply (persistent_from_saves_lookup _ _ _ k); [by apply NoDup_indices| |done].
    apply indices_lookup; [done|]. by apply lookup_lt_Some in Hb.
Qed.

(** X8.  [HandleOKCallback] returns after making, in this order: one
    [GetFromPersistent] call for every index of the vector, the deletion of
    the input descriptor, the deletion of the baton, and the callback
    invocation, which is its last call.  A whole task returns and invokes the
    callback exactly once, whatever [OpenInput] answered. *)
Theorem completion_order i s :
  (∀ s', outcome HandleOKCallback s' = Returns tt
         ∧ events HandleOKCallback s'
           = (GetFromPersistent <$> indices 0 (length (buffersToPersist s')))
               ++ [DeleteInput; DeleteBaton]
               ++ [CallbackCall (argv_of (baton s')).1 (argv_of (baton s')).2])
  ∧ outcome (task i) s = Returns tt
  ∧ callbacks (events (task i) s) = [argv_of (baton (final (task i) s))].
Proof.
  split; [|split].
  - intros s'. split; [apply outcome_HandleOKCallback|apply events_HandleOKCallback].
  - apply outcome_task.
  - apply callbacks_task.
Qed.

(** C10.  The error string of a finished task is exactly what [Execute]
    appended to it: the message of the [VError] when [OpenInput] threw,
    nothing otherwise.  The callback receives an error if and only if that
    string is not empty; a [VError] whose message is empty therefore reaches
    the caller as null and a metadata object. *)
Theorem outcome_by_error_string i s :
  let b := baton (final (task i) s) in
  let appended := match opened i with inl e => what e | inr _ => "" end in
  err b = err (fresh_baton i s) +:+ appended
  ∧ err (fresh_baton i s) = ""
  ∧ callbacks (events (task i) s) = [argv_of b]
  ∧ (appended ≠ "" → argv_of b = (JsError appended, JsNull))
  ∧ (appended = "" → argv_of b = (JsNull, JsObject (info_of b)))
  ∧ (∀ e, opened i = inl e → what e = "" →
       callbacks (events (task i) s) = [(JsNull, JsObject (info_of b))]).
Proof.
  intros b appended.
  assert (Eb : err b = appended) by apply err_task.
  split; [done|]. split; [done|]. split; [apply callbacks_task|].
  split; [|split].
  - intros NE. rewrite argv_of_error by congruence.
    unfold b. by rewrite c_str_err_task, <- Eb.
  - intros E. apply argv_of_result. congruence.
  - intros e Eo We. rewrite callbacks_task. fold b. f_equal.
    apply argv_of_result. rewrite Eb. unfold appended. by rewrite Eo.
Qed.

End Claims.

(** * Further properties of the task *)

Section More.

Context `{Common}.

(** ** Helper facts *)

Lemma c_str_no_NUL s : has_NUL s = false → c_str s = s.
Proof.
  induction s as [|c s IH]; [done|]. cbn.
  destruct (Ascii.eqb c Ascii.zero); [done|]. cbn. intros E. by rewrite IH.
Qed.

Lemma has_NUL_c_str s : has_NUL (c_str s) = false.
Proof.
  induction s as [|c s IH]; [done|]. cbn.
  destruct (Ascii.eqb c Ascii.zero) eqn:E; [done|]. cbn. by rewrite E.
Qed.

(** What [c_str] leaves out starts with a NUL. *)
Lemma c_str_cut s :
  ∃ rest, s = c_str s +:+ rest ∧ (rest = "" ∨ ∃ r, rest = String Ascii.zero r).
Proof.
  induction s as [|c s (rest & IH & R)]; [exists ""; by split; [|left]|]. cbn.
  destruct (Ascii.eqb c Ascii.zero) eqn:E.
  - apply Ascii.eqb_eq in E as ->. exists (String Ascii.zero s).
    split; [done|]. right. by exists s.
  - exists rest. split; [|done].
    change (String c s = String c (c_str s +:+ rest)). by f_equal.
Qed.

Lemma header_read_attrs img ty b h :
  let b' := (header_read img ty b h).1 in
  space b' = vips_enum_nick (vips.interpretation img)
  ∧ channels b' = vips.bands img
  ∧ hasProfile b' = HasProfile img
  ∧ hasAlpha b' = HasAlpha img
  ∧ orientation b' = ExifOrientation img
  ∧ input b' = input b.
Proof.
  unfold header_read.
  destruct (copied (vips.exif_blob img) _ h) as [[? ?] h1].
  by destruct (copied (vips.icc_blob img) _ h1) as [[? ?] ?].
Qed.

Lemma elem_of_owned blob p q :
  q ∈ owned blob p → p = Some q ∧ ∃ x l, blob = Some (x :: l).
Proof.
  destruct blob as [[|x l]|], p as [r|]; cbn; intros Hq;
    try (by apply not_elem_of_empty in Hq).
  apply elem_of_singleton in Hq as ->. eauto.
Qed.

(** The buffers of the metadata object, read off the baton. *)
Lemma info_buffer b k data len :
  info_of b !! k = Some (JsBuffer data len) →
  (k = "exif" ∧ data = exif b ∧ len = exifLength b ∧ (0 < exifLength b)%N)
  ∨ (k = "icc" ∧ data = icc b ∧ len = iccLength b ∧ (0 < iccLength b)%N).
Proof.
  intros Hv.
  assert (Hk : k ∈ info_keys) by (apply (info_no_other_key b); eauto).
  destruct (info_lookups b)
    as (Hf & Hw & Hh & Hs & Hc & Hp & Ha & Hd & Ho & He & Hi).
  unfold info_keys in Hk. rewrite !elem_of_cons in Hk.
  destruct Hk as [->|[->|[->|[->|[->|[->|[->|[->|[->|[->|[->|Hk]]]]]]]]]]].
  - rewrite Hf in Hv. done.
  - rewrite Hw in Hv. done.
  - rewrite Hh in Hv. done.
  - rewrite Hs in Hv. done.
  - rewrite Hc in Hv. done.
  - rewrite Hd in Hv. by destruct (0 <? density b).
  - rewrite Hp in Hv. done.
  - rewrite Ha in Hv. done.
  - rewrite Ho in Hv. by destruct (0 <? orientation b).
  - rewrite He in Hv. destruct (0 <? exifLength b)%N eqn:E; [|done].
    injection Hv as <- <-. left. by apply N.ltb_lt in E.
  - rewrite Hi in Hv. destruct (0 <? iccLength b)%N eqn:E; [|done].
    injection Hv as <- <-. right. by apply N.ltb_lt in E.
  - by apply elem_of_nil in Hk.
Qed.

(** The blocks of a finished task: a positive length goes with a block that
    the task allocated and wrote in full; the heap gained no other block; the
    two buffers are different blocks; older blocks are as they were. *)
Lemma task_blocks i s :
  let sf := final (task i) s in
  let b := baton sf in
  ((0 < exifLength b)%N →
     ∃ q bs, exif b = Some q ∧ (q ∉ dom (heap s)) ∧ holds (heap sf) q bs
             ∧ exifLength b = N.of_nat (length bs))
  ∧ ((0 < iccLength b)%N →
     ∃ q bs, icc b = Some q ∧ (q ∉ dom (heap s)) ∧ holds (heap sf) q bs
             ∧ iccLength b = N.of_nat (length bs))
  ∧ (∀ q, q ∈ dom (heap sf) → q ∉ dom (heap s) →
       (exif b = Some q ∧ (0 < exifLength b)%N)
       ∨ (icc b = Some q ∧ (0 < iccLength b)%N))
  ∧ ((0 < exifLength b)%N → (0 < iccLength b)%N → exif b ≠ icc b)
  ∧ (∀ q, q ∈ dom (heap s) → heap sf !! q = heap s !! q)
  ∧ (err b ≠ "" → heap sf = heap s).
Proof.
  intros sf b.
  assert (Same : baton sf = fresh_baton i s ∨ (∃ e, baton sf = set_err (what e) (fresh_baton i s)) →
                 heap sf = heap s →
                 ((0 < exifLength b)%N → ∃ q bs, exif b = Some q ∧ (q ∉ dom (heap s))
                    ∧ holds (heap sf) q bs ∧ exifLength b = N.of_nat (length bs))
                 ∧ ((0 < iccLength b)%N → ∃ q bs, icc b = Some q ∧ (q ∉ dom (heap s))
                    ∧ holds (heap sf) q bs ∧ iccLength b = N.of_nat (length bs))
                 ∧ (∀ q, q ∈ dom (heap sf) → q ∉ dom (heap s) →
                      (exif b = Some q ∧ (0 < exifLength b)%N)
                      ∨ (icc b = Some q ∧ (0 < iccLength b)%N))
                 ∧ ((0 < exifLength b)%N → (0 < iccLength b)%N → exif b ≠ icc b)
                 ∧ (∀ q, q ∈ dom (heap s) → heap sf !! q = heap s !! q)
                 ∧ (err b ≠ "" → heap sf = heap s)).
  { intros B Hh. unfold b.
    assert (L : exifLength (baton sf) = 0%N ∧ iccLength (baton sf) = 0%N).
    { destruct B as [->|[e ->]]; done. }
    destruct L as [-> ->]. rewrite Hh.
    split; [intros L; by apply N.lt_irrefl in L|].
    split; [intros L; by apply N.lt_irrefl in L|].
    split; [done|]. split; [intros L; by apply N.lt_irrefl in L|]. done. }
  destruct (opened i) as [e|[img ty]] eqn:E.
  { destruct (task_thrown i s e E) as [Hb Hh]. apply Same; [right; by exists e|done]. }
  destruct (decide (ty = UNKNOWN)) as [->|U].
  { destruct (task_unknown i s img E) as [Hb Hh]. apply Same; [by left|done]. }
  clear Same.
  pose proof (task_known i s img ty E U) as K. fold sf in K. fold b in K.
  unfold header_read in K. cbn in K.
  destruct (copied (vips.exif_blob img) _ (heap s)) as [[pe ne] h1] eqn:C1.
  destruct (copied (vips.icc_blob img) _ h1) as [[pi ni] h2] eqn:C2.
  injection K as Kb Kh. rewrite Kb, Kh. cbn. clear Kb Kh.
  apply copied_spec in C1 as (X1 & X2 & X3 & X4 & X5).
  apply copied_spec in C2 as (I1 & I2 & I3 & I4 & I5).
  assert (PX : (0 < ne)%N → ∃ q bs, pe = Some q ∧ (q ∉ dom (heap s))
                 ∧ holds h1 q bs ∧ ne = N.of_nat (length bs)
                 ∧ owned (vips.exif_blob img) pe = {[q]}).
  { intros L. destruct (vips.exif_blob img) as [[|x l]|] eqn:B.
    - destruct X2 as [-> _]; [by right|]. by apply N.lt_irrefl in L.
    - destruct (X1 (x :: l)) as (q & -> & ? & ? & ?); [done..|]. by exists q, (x :: l).
    - destruct X2 as [-> _]; [by left|]. by apply N.lt_irrefl in L. }
  assert (PI : (0 < ni)%N → ∃ q bs, pi = Some q ∧ (q ∉ dom h1)
                 ∧ holds h2 q bs ∧ ni = N.of_nat (length bs)).
  { intros L. destruct (vips.icc_blob img) as [[|x l]|] eqn:B.
    - destruct I2 as [-> _]; [by right|]. by apply N.lt_irrefl in L.
    - destruct (I1 (x :: l)) as (q & -> & ? & ? & ?); [done..|]. by exists q, (x :: l).
    - destruct I2 as [-> _]; [by left|]. by apply N.lt_irrefl in L. }
  split; [|split; [|split; [|split; [|split]]]].
  - intros L. destruct (PX L) as (q & bs & -> & Hq & Hh & -> & Ho).
    exists q, bs. repeat split; try done.
    unfold holds in *. rewrite I5; [done|]. rewrite X3, Ho.
    apply elem_of_union_r. by apply elem_of_singleton.
  - intros L. destruct (PI L) as (q & bs & -> & Hq & Hh & ->).
    exists q, bs. repeat split; try done.
    intros Q. apply Hq. rewrite X3. by apply elem_of_union_l.
  - intros q Hq Hn. rewrite I3, X3 in Hq.
    apply elem_of_union in Hq as [Hq|Hq]; [apply elem_of_union in Hq as [Hq|Hq]|].
    + done.
    + left. apply elem_of_owned in Hq as (-> & x & l & B). split; [done|].
      destruct (N.eq_0_gt_0_cases ne) as [Z|P]; [|done].
      destruct (X1 (x :: l)) as (? & _ & _ & _ & N0); [done..|].
      rewrite N0 in Z. cbn in Z. lia.
    + right. apply elem_of_owned in Hq as (-> & x & l & B). split; [done|].
      destruct (N.eq_0_gt_0_cases ni) as [Z|P]; [|done].
      destruct (I1 (x :: l)) as (? & _ & _ & _ & N0); [done..|].
      rewrite N0 in Z. cbn in Z. lia.
  - intros LX LI. destruct (PX LX) as (q & bs & -> & Hq & Hh & _ & Ho).
    destruct (PI LI) as (q' & bs' & -> & Hq' & _).
    intros [= ->]. apply Hq'. rewrite X3, Ho.
    apply elem_of_union_r. by apply elem_of_singleton.
  - intros q Hq. rewrite I5; [by apply X5|]. rewrite X3. by apply elem_of_union_l.
  - done.
Qed.

Lemma counter_task i s :
  - 2 ^ 31 ≤ counterQueue s < 2 ^ 31 → counterQueue (final (task i) s) = counterQueue s.
Proof.
  intros R. rewrite final_task. change (counterQueue (completed ?x)) with (counterQueue x).
  rewrite counter_Executed, counter_submitted, to_int_inc_dec. by apply to_int_id.
Qed.

Lemma trace_task i s : trace (final (task i) s) = trace s ++ events (task i) s.
Proof.
  assert (X : ∃ evs, trace (final (task i) s) = trace s ++ evs).
  { rewrite final_task. unfold completed, add_trace. cbn.
    rewrite trace_Executed, trace_submitted, <- !app_assoc. eauto. }
  destruct X as [evs X]. unfold events. rewrite X. by rewrite drop_app_length.
Qed.

Lemma delivered_task i s : delivered i (argv_of (baton (final (task i) s))).
Proof.
  unfold delivered. pose proof (err_task i s) as Eb.
  destruct (opened i) as [e|r].
  - destruct (empty (what e)) eqn:Ee.
    + apply empty_true in Ee. rewrite argv_of_result by congruence. eauto.
    + apply empty_false in Ee. rewrite argv_of_error by congruence.
      by rewrite c_str_err_task, Eb.
  - rewrite argv_of_result by done. eauto.
Qed.

Lemma tasks_cons i l s : tasks (i :: l) s = tasks l (final (task i) s).
Proof.
  cbn [tasks]. unfold mbind, M_bind. rewrite task_runs. by rewrite final_task.
Qed.

(** What a sequence of tasks keeps, by induction on the sequence. *)
Lemma tasks_invariant l : ∀ s,
  - 2 ^ 31 ≤ counterQueue s < 2 ^ 31 →
  outcome (tasks l) s = Returns tt
  ∧ counterQueue (final (tasks l) s) = counterQueue s
  ∧ (∃ evs, trace (final (tasks l) s) = trace s ++ evs
            ∧ Forall2 delivered l (callbacks evs))
  ∧ (∀ q, q ∈ dom (heap s) → heap (final (tasks l) s) !! q = heap s !! q).
Proof.
  induction l as [|i l IH]; intros s R.
  - repeat split; try done. exists []. split; [by rewrite app_nil_r|constructor].
  - unfold outcome, final. rewrite tasks_cons.
    fold (outcome (tasks l) (final (task i) s)).
    fold (final (tasks l) (final (task i) s)).
    pose proof (counter_task i s R) as Ec.
    destruct (IH (final (task i) s)) as (Ho & Hc & (evs & Ht & Hd) & Hh);
      [by rewrite Ec|].
    split; [done|]. split; [congruence|]. split.
    + exists (events (task i) s ++ evs). split.
      * by rewrite Ht, trace_task, <- app_assoc.
      * rewrite callbacks_app, callbacks_task. cbn. constructor; [|done].
        apply delivered_task.
    + intros q Hq.
      destruct (task_blocks i s) as (_ & _ & _ & _ & Hk & _).
      rewrite Hh; [by apply Hk|].
      apply elem_of_dom. rewrite Hk by done. by apply elem_of_dom.
Qed.

Lemma outcome_metadata i s : outcome (metadata i) s = Returns tt.
Proof. unfold outcome. by rewrite metadata_runs. Qed.

Lemma callbacks_result i s a0 info :
  callbacks (events (task i) s) = [(a0, JsObject info)] →
  err (baton (final (task i) s)) = "" ∧ a0 = JsNull
  ∧ info = info_of (baton (final (task i) s)).
Proof.
  rewrite callbacks_task. intros [= E].
  destruct (decide (err (baton (final (task i) s)) = "")) as [Z|NZ].
  - rewrite (argv_of_result _ Z) in E. by injection E as <- <-.
  - by rewrite (argv_of_error _ NZ) in E.
Qed.

(** X1.  A task whose image is opened with a recognised type delivers null
    and a metadata object that holds the header of that image: the identifier
    of the type, the width, height and bands converted to [uint32_t], the
    nickname of the interpretation, the two flags, the density exactly when
    [HasDensity] holds and [GetDensity] is positive, and the orientation
    exactly when [ExifOrientation] is positive.  None of these values comes
    from the memory the baton was built in. *)
Theorem recognised_image_record i s img ty :
  opened i = inr (img, ty) → ty ≠ UNKNOWN →
  ∃ info,
    callbacks (events (task i) s) = [(JsNull, JsObject info)]
    ∧ info !! "format" = Some (JsString (ImageTypeId ty))
    ∧ info !! "width" = Some (New_Uint32 (vips.width img))
    ∧ info !! "height" = Some (New_Uint32 (vips.height img))
    ∧ info !! "space" = Some (JsString (vips_enum_nick (vips.interpretation img)))
    ∧ info !! "channels" = Some (New_Uint32 (vips.bands img))
    ∧ info !! "hasProfile" = Some (JsBoolean (HasProfile img))
    ∧ info !! "hasAlpha" = Some (JsBoolean (HasAlpha img))
    ∧ info !! "density"
        = (if HasDensity img && (0 <? GetDensity img)
           then Some (New_Uint32 (GetDensity img)) else None)
    ∧ info !! "orientation"
        = (if 0 <? ExifOrientation img
           then Some (New_Uint32 (ExifOrientation img)) else None).
Proof.
  intros E U. set (b := baton (final (task i) s)).
  assert (Eb : err b = "") by (unfold b; rewrite err_task; by rewrite E).
  exists (info_of b). rewrite callbacks_task. fold b. rewrite (argv_of_result b Eb).
  split; [done|].
  destruct (info_lookups b)
    as (Hf & Hw & Hh & Hs & Hc & Hp & Ha & Hd & Ho & _ & _).
  rewrite Hf, Hw, Hh, Hs, Hc, Hp, Ha, Hd, Ho. unfold b.
  rewrite (task_known_baton i s img ty E U).
  destruct (header_read_fields img ty (fresh_baton i s) (heap s))
    as (-> & -> & -> & -> & _).
  destruct (header_read_attrs img ty (fresh_baton i s) (heap s))
    as (-> & -> & -> & -> & -> & _).
  repeat split. by destruct (HasDensity img).
Qed.

(** X2.  When [OpenInput] throws, whatever the message, the task opens the
    input once and does not try again, allocates nothing, and the error it
    stores is the part of the thrown message before its first NUL: it holds
    no NUL, and what the message has beyond it is nothing or starts with a
    NUL.  A stored error with a character is what the callback receives, with
    null as the second argument; so a thrown message that is not empty and
    holds no NUL reaches the callback whole. *)
Theorem failure_delivered_whole i s e :
  opened i = inl e →
  length (List.filter is_open (events (task i) s)) = 1%nat
  ∧ heap (final (task i) s) = heap s
  ∧ err (baton (final (task i) s)) = what e
  ∧ has_NUL (what e) = false
  ∧ (∃ rest, message e = what e +:+ rest
             ∧ (rest = "" ∨ ∃ r, rest = String Ascii.zero r))
  ∧ (has_NUL (message e) = false → what e = message e)
  ∧ (what e ≠ "" →
     callbacks (events (task i) s) = [(JsError (what e), JsNull)])
  ∧ (message e ≠ "" → has_NUL (message e) = false →
     callbacks (events (task i) s) = [(JsError (message e), JsNull)]).
Proof.
  intros E.
  assert (Eb : err (baton (final (task i) s)) = what e).
  { rewrite err_task. by rewrite E. }
  assert (C : what e ≠ "" →
              callbacks (events (task i) s) = [(JsError (what e), JsNull)]).
  { intros NE. rewrite callbacks_task, argv_of_error by congruence.
    by rewrite c_str_err_task, Eb. }
  split; [|split; [|split; [|split; [|split; [|split; [|split]]]]]].
  - rewrite events_task, !List.filter_app.
    rewrite filter_saves, filter_gets by done. reflexivity.
  - by destruct (task_thrown i s e E) as [_ ->].
  - exact Eb.
  - apply has_NUL_c_str.
  - apply c_str_cut.
  - apply c_str_no_NUL.
  - exact C.
  - intros NE NN. assert (W : what e = message e) by (by apply c_str_no_NUL).
    rewrite <- W. apply C. by rewrite W.
Qed.

(** X3.  Every buffer of a metadata object that a task delivers lies on a
    block that did not exist when the task started, holds at least one byte,
    and has exactly the length of that block, all of whose cells have been
    written: no unwritten and no foreign memory reaches the caller. *)
Theorem delivered_buffers_backed i s a0 info k data len :
  callbacks (events (task i) s) = [(a0, JsObject info)] →
  info !! k = Some (JsBuffer data len) →
  ∃ q bs, data = Some q
          ∧ (q ∉ dom (heap s))
          ∧ heap (final (task i) s) !! q = Some (Some <$> bs)
          ∧ len = N.of_nat (length bs)
          ∧ bs ≠ [].
Proof.
  intros C Hk. destruct (callbacks_result i s a0 info C) as (_ & _ & ->).
  destruct (task_blocks i s) as (TX & TI & _).
  apply info_buffer in Hk as [(_ & -> & -> & L)|(_ & -> & -> & L)].
  - destruct (TX L) as (q & bs & Eq & Hq & Hh & El). exists q, bs.
    repeat split; try done. intros ->. rewrite El in L. by apply N.lt_irrefl in L.
  - destruct (TI L) as (q & bs & Eq & Hq & Hh & El). exists q, bs.
    repeat split; try done. intros ->. rewrite El in L. by apply N.lt_irrefl in L.
Qed.

(** X4.  Every block a task allocates is handed to the caller: it is the
    block of a buffer of the delivered metadata object, under one key only.
    A task that delivers an error has allocated nothing, and no task changes
    or removes a block that existed before it. *)
Theorem allocated_blocks_delivered i s :
  let sf := final (task i) s in
  (∀ q, q ∈ dom (heap sf) → q ∉ dom (heap s) →
     ∃ info k len,
       callbacks (events (task i) s) = [(JsNull, JsObject info)]
       ∧ info !! k = Some (JsBuffer (Some q) len)
       ∧ (∀ k' len', info !! k' = Some (JsBuffer (Some q) len') → k' = k))
  ∧ (∀ msg a1, callbacks (events (task i) s) = [(JsError msg, a1)] → heap sf = heap s)
  ∧ (∀ q, q ∈ dom (heap s) → heap sf !! q = heap s !! q).
Proof.
  intros sf. set (b := baton sf).
  destruct (task_blocks i s) as (TX & TI & TA & TD & TK & TE).
  fold sf in TX, TI, TA, TD, TK, TE. fold b in TX, TI, TA, TD, TE.
  destruct (info_lookups b) as (_ & _ & _ & _ & _ & _ & _ & _ & _ & He & Hi).
  split; [|split; [|exact TK]].
  - intros q Hq Hn.
    assert (Eb : err b = "").
    { destruct (decide (err b = "")) as [|NZ]; [done|].
      rewrite (TE NZ) in Hq. done. }
    exists (info_of b). rewrite callbacks_task. fold sf b. rewrite (argv_of_result b Eb).
    destruct (TA q Hq Hn) as [[Eq L]|[Eq L]].
    + exists "exif", (exifLength b). split; [done|]. split.
      * rewrite He. apply N.ltb_lt in L. by rewrite L, Eq.
      * intros k' len' Hk'.
        apply info_buffer in Hk' as [(-> & _)|(-> & Ei & _ & Li)]; [done|].
        exfalso. apply (TD L Li). congruence.
    + exists "icc", (iccLength b). split; [done|]. split.
      * rewrite Hi. apply N.ltb_lt in L. by rewrite L, Eq.
      * intros k' len' Hk'.
        apply info_buffer in Hk' as [(-> & Ee & _ & Le)|(-> & _)]; [|done].
        exfalso. apply (TD Le L). congruence.
  - intros msg a1. rewrite callbacks_task. fold sf b. intros [= C].
    apply TE. intros Z. by rewrite (argv_of_result b Z) in C.
Qed.

(** X5.  Tasks run one after another all return, and invoke the callback once
    each, in the order of submission; each invocation is the one that
    corresponds to what [OpenInput] answers for its own input, whatever the
    earlier tasks did.  A counter that started within the range of [int] is
    back at its starting value, and the blocks that existed before the first
    task are unchanged. *)
Theorem tasks_in_sequence l s :
  - 2 ^ 31 ≤ counterQueue s < 2 ^ 31 →
  outcome (tasks l) s = Returns tt
  ∧ Forall2 delivered l (callbacks (events (tasks l) s))
  ∧ length (callbacks (events (tasks l) s)) = length l
  ∧ counterQueue (final (tasks l) s) = counterQueue s
  ∧ (∀ q, q ∈ dom (heap s) → heap (final (tasks l) s) !! q = heap s !! q).
Proof.
  intros R. destruct (tasks_invariant l s R) as (Ho & Hc & (evs & Ht & Hd) & Hh).
  assert (Ev : events (tasks l) s = evs).
  { unfold events. rewrite Ht. apply drop_app_length. }
  rewrite Ev. split; [done|]. split; [done|].
  split; [symmetry; by eapply Forall2_length|]. by split.
Qed.

(** X6.  In the two cases where nothing is read and yet no error is stored,
    an image opened without a recognised type and a thrown message without
    characters, the task delivers null and a metadata object with exactly the
    seven unconditional keys: it has no density, orientation, exif or icc,
    and nothing was allocated. *)
Theorem anomalous_success_record i s :
  (∃ img, opened i = inr (img, UNKNOWN)) ∨ (∃ e, opened i = inl e ∧ what e = "") →
  ∃ info,
    callbacks (events (task i) s) = [(JsNull, JsObject info)]
    ∧ (∀ k, is_Some (info !! k) ↔ k ∈ always_keys)
    ∧ heap (final (task i) s) = heap s.
Proof.
  intros A. set (b := baton (final (task i) s)).
  assert (B : (b = fresh_baton i s ∨ b = set_err "" (fresh_baton i s))
              ∧ heap (final (task i) s) = heap s).
  { destruct A as [[img E]|(e & E & W)].
    - destruct (task_unknown i s img E) as [Hb Hh]. split; [by left|done].
    - destruct (task_thrown i s e E) as [Hb Hh]. rewrite W in Hb.
      split; [by right|done]. }
  destruct B as [B Hh].
  assert (Z : err b = "" ∧ density b = 0 ∧ orientation b = 0
              ∧ exifLength b = 0%N ∧ iccLength b = 0%N).
  { destruct B as [->| ->]; done. }
  destruct Z as (Eb & Zd & Zo & Ze & Zi).
  exists (info_of b). rewrite callbacks_task. fold b. rewrite (argv_of_result b Eb).
  split; [done|]. split; [|done].
  destruct (info_lookups b)
    as (Hf & Hw & Hh' & Hs & Hc & Hp & Ha & Hd & Ho & He & Hi).
  rewrite Zd in Hd. rewrite Zo in Ho. rewrite Ze in He. rewrite Zi in Hi.
  cbn in Hd, Ho, He, Hi.
  intros k. split.
  - intros Hk. pose proof (info_no_other_key b k Hk) as K.
    unfold info_keys in K. rewrite !elem_of_cons in K. unfold always_keys.
    destruct K as [->|[->|[->|[->|[->|[->|[->|[->|[->|[->|[->|K]]]]]]]]]]];
      try (by repeat constructor).
    + rewrite Hd in Hk. by destruct Hk.
    + rewrite Ho in Hk. by destruct Hk.
    + rewrite He in Hk. by destruct Hk.
    + rewrite Hi in Hk. by destruct Hk.
  - unfold always_keys. rewrite !elem_of_cons.
    intros [->|[->|[->|[->|[->|[->|[->|K]]]]]]]; eauto.
    by apply elem_of_nil in K.
Qed.

(** X7.  The callback is invoked neither by the body of [metadata] nor by
    [Execute]: the only callback call of a task is the last call of its
    completion.  The body of [metadata] returns, makes no call of
    [OpenInput] and does not write the heap; what a worker that was queued
    does while [metadata] is still running is not part of this statement. *)
Theorem submission_is_quiet i s :
  outcome (metadata i) s = Returns tt
  ∧ callbacks (events (metadata i) s) = []
  ∧ List.filter is_open (events (metadata i) s) = []
  ∧ heap (final (metadata i) s) = heap s
  ∧ (∀ s', callbacks (events Execute s') = [])
  ∧ (∃ pre a0 a1, events (task i) s = pre ++ [CallbackCall a0 a1]
                  ∧ callbacks pre = []).
Proof.
  split; [apply outcome_metadata|].
  split; [|split; [|split; [|split]]].
  - by rewrite events_metadata, callbacks_app, callbacks_saves.
  - rewrite events_metadata, List.filter_app, filter_saves by done. reflexivity.
  - by rewrite final_metadata, heap_submitted.
  - intros s'. by rewrite events_Execute.
  - exists (zip_with SaveToPersistent (indices 0 (length (buffers_of i))) (buffers_of i)
              ++ [AsyncQueueWorker; AtomicInc] ++ Execute_calls
              ++ (GetFromPersistent <$> indices 0 (length (buffers_of i)))
              ++ [DeleteInput; DeleteBaton]),
      (argv_of (baton (final (task i) s))).1, (argv_of (baton (final (task i) s))).2.
    split.
    + rewrite events_task. by rewrite <- !app_assoc.
    + rewrite !callbacks_app. by rewrite callbacks_saves, callbacks_gets.
Qed.

End More.

(** * The model on sample tasks *)

Module Examples.

Import Sample.

(** A JPEG with both blobs and two buffers to persist, from submission to
    callback. *)
Example jpeg_task_events :
  events (task jpeg_input) idle
    = [SaveToPersistent 0 11; SaveToPersistent 1 12; AsyncQueueWorker; AtomicInc;
       AtomicDecAndTest; OpenInputCall; VipsErrorClear; VipsThreadShutdown;
       GetFromPersistent 0; GetFromPersistent 1; DeleteInput; DeleteBaton;
       CallbackCall JsNull
         (JsObject (info_of (baton (final (task jpeg_input) idle))))].
Proof. vm_compute. reflexivity. Qed.

Example jpeg_task_baton :
  let b := baton (final (task jpeg_input) idle) in
  (format b, width b, height b, space b, channels b)
    = ("jpeg", 640, 480, "srgb", 3)
  ∧ (density b, hasProfile b, hasAlpha b, orientation b) = (72, true, false, 6)
  ∧ (exif b, exifLength b, icc b, iccLength b) = (Some 8%N, 4%N, Some 9%N, 5%N)
  ∧ heap (final (task jpeg_input) idle)
      = <[9%N := Some <$> bytes2]> (<[8%N := Some <$> bytes1]> (heap idle)).
Proof. vm_compute. repeat split. Qed.

Example missing_task_callback :
  callbacks (events (task missing_input) idle)
    = [(JsError "Input file is missing", JsNull)].
Proof. vm_compute. reflexivity. Qed.

Example c_str_stops_at_NUL :
  c_str (String "a" (String Ascii.zero (String "b" EmptyString))) = "a".
Proof. reflexivity. Qed.

Example index_wraps : indices (2 ^ 32 - 1) 2 = [4294967295; 0].
Proof. vm_compute. reflexivity. Qed.

(** C1: an image opened without a recognised type is not reported as an
    error.  [OpenInput] returns, the type is [UNKNOWN], and the baton ends with
    an empty error string and with the format and width the new baton had;
    the callback receives null and a metadata object. *)
Lemma unknown_type_is_not_an_error :
  @opened rich unknown_input = inr (photo None None, @UNKNOWN rich)
  ∧ err (baton (final (task unknown_input) idle)) = ""
  ∧ ¬ (err (baton (final (task unknown_input) idle)) ≠ "")
  ∧ format (baton (final (task unknown_input) idle)) = "?"
  ∧ width (baton (final (task unknown_input) idle)) = -1
  ∧ callbacks (events (task unknown_input) idle)
      = [(JsNull, JsObject (info_of (baton (final (task unknown_input) idle))))].
Proof.
  split; [reflexivity|]. split; [reflexivity|]. split; [by intros []|].
  split; [reflexivity|]. split; [reflexivity|]. vm_compute. reflexivity.
Qed.

Lemma error_or_header_witness :
  @opened rich jpeg_input = inr (photo (Some bytes1) (Some bytes2), JPEG)
  ∧ JPEG ≠ @UNKNOWN rich
  ∧ err (baton (final (task jpeg_input) idle)) = ""
  ∧ format (baton (final (task jpeg_input) idle)) = "jpeg"
  ∧ width (baton (final (task jpeg_input) idle)) = 640
  ∧ height (baton (final (task jpeg_input) idle)) = 480.
Proof.
  split; [reflexivity|]. split; [discriminate|].
  destruct (@error_or_header rich jpeg_input idle) as (_ & K & _ & _).
  apply (K (photo (Some bytes1) (Some bytes2)) JPEG); [reflexivity|discriminate].
Defined.

Lemma callback_pair_exclusive_witness :
  ∃ argv0 argv1,
    callbacks (events (task missing_input) idle) = [(argv0, argv1)]
    ∧ (argv0 = JsNull ↔ argv1 ≠ JsNull).
Proof.
  destruct (@callback_pair_exclusive rich missing_input idle)
    as (argv0 & argv1 & E & _ & X).
  exists argv0, argv1. split; [exact E | exact X].
Defined.

Lemma open_failure_recorded_witness :
  let s := final (metadata missing_input) idle in
  let e := {| message := "Input file is missing" |} in
  @OpenInput rich (input (baton s)) VIPS_ACCESS_SEQUENTIAL = inl e
  ∧ outcome Execute s = Returns tt
  ∧ baton (final Execute s) = set_err (err (baton s) +:+ what e) (baton s)
  ∧ heap (final Execute s) = heap s
  ∧ events Execute s = Execute_calls.
Proof.
  intros s e. split; [reflexivity|].
  apply (@open_failure_recorded rich s e). reflexivity.
Defined.

Lemma record_fields_witness :
  err (baton (final (task jpeg_input) idle)) = ""
  ∧ callbacks (events (task jpeg_input) idle)
      = [(JsNull, JsObject (info_of (baton (final (task jpeg_input) idle))))]
  ∧ (is_Some (info_of (baton (final (task jpeg_input) idle)) !! "density")
     ↔ 0 < density (baton (final (task jpeg_input) idle))).
Proof.
  destruct (@record_fields rich jpeg_input idle) as (F & K & _).
  split; [reflexivity|]. split; [apply K; reflexivity|].
  apply (F (baton (final (task jpeg_input) idle))).
Defined.

(** C5: a JPEG whose EXIF blob is present but has no bytes is opened, no
    block is allocated for the blob and the metadata object has no exif
    buffer. *)
Lemma empty_exif_not_delivered :
  let f := final (task empty_exif_input) idle in
  @opened rich empty_exif_input = inr (photo (Some []) None, JPEG)
  ∧ vips.exif_blob (photo (Some []) None) = Some []
  ∧ err (baton f) = ""
  ∧ exif (baton f) = None
  ∧ exifLength (baton f) = 0%N
  ∧ heap f = heap idle
  ∧ info_of (baton f) !! "exif" = None
  ∧ callbacks (events (task empty_exif_input) idle)
      = [(JsNull, JsObject (info_of (baton f)))].
Proof. vm_compute. repeat split. Qed.

Lemma blobs_copied_witness :
  let f := final (task jpeg_input) idle in
  @opened rich jpeg_input = inr (photo (Some bytes1) (Some bytes2), JPEG)
  ∧ JPEG ≠ @UNKNOWN rich
  ∧ bytes1 ≠ []
  ∧ ∃ p, exif (baton f) = Some p
         ∧ (p ∉ dom (heap idle))
         ∧ holds (heap f) p bytes1
         ∧ exifLength (baton f) = 4%N
         ∧ info_of (baton f) !! "exif" = Some (JsBuffer (Some p) 4%N).
Proof.
  intros f. split; [reflexivity|]. split; [discriminate|]. split; [discriminate|].
  destruct (@blobs_copied rich jpeg_input idle) as (K & _).
  destruct (K (photo (Some bytes1) (Some bytes2)) JPEG) as (X & _);
    [reflexivity|discriminate|].
  apply (X bytes1); [reflexivity|discriminate].
Defined.

(** An image with both blobs that is opened without a recognised type: the
    task delivers a metadata object, and neither blob is copied. *)
Example unknown_type_copies_nothing :
  let f := final (task unknown_blobs_input) idle in
  callbacks (events (task unknown_blobs_input) idle)
    = [(JsNull, JsObject (info_of (baton f)))]
  ∧ exifLength (baton f) = 0%N
  ∧ info_of (baton f) !! "exif" = None
  ∧ heap f = heap idle.
Proof. vm_compute. repeat split. Qed.

(** C6: in the submission the worker is queued first and the counter is
    incremented afterwards; no increment precedes the queueing. *)
Lemma increment_follows_queueing :
  events (metadata jpeg_input) idle
    = [SaveToPersistent 0 11; SaveToPersistent 1 12; AsyncQueueWorker; AtomicInc]
  ∧ ¬ (∃ pre post, events (metadata jpeg_input) idle = pre ++ AtomicInc :: post
                   ∧ AsyncQueueWorker ∈ post).
Proof.
  split; [reflexivity|].
  intros (pre & post & E & I).
  change (events (metadata jpeg_input) idle)
    with [SaveToPersistent 0 11; SaveToPersistent 1 12; AsyncQueueWorker; AtomicInc] in E.
  destruct pre as [|e1 [|e2 [|e3 [|e4 [|e5 pre]]]]]; cbn in E; try discriminate.
  injection E as _ _ _ <-. by apply elem_of_nil in I.
Qed.

Lemma counter_once_per_task_witness :
  - 2 ^ 31 ≤ counterQueue idle < 2 ^ 31
  ∧ length (List.filter is_inc (events (task jpeg_input) idle)) = 1%nat
  ∧ length (List.filter is_dec (events (task jpeg_input) idle)) = 1%nat
  ∧ counterQueue (final (task jpeg_input) idle) = counterQueue idle.
Proof.
  assert (R : - 2 ^ 31 ≤ counterQueue idle < 2 ^ 31) by (cbn; lia).
  split; [exact R|].
  destruct (@counter_once_per_task rich jpeg_input idle R)
    as (_ & _ & _ & I & D & _ & C & _).
  split; [exact I|]. split; [exact D | exact C].
Defined.


Lemma pins_held_at_callback_witness :
  Z.of_nat (length (buffers_of jpeg_input)) ≤ 2 ^ 32
  ∧ buffers_of jpeg_input !! 0%nat = Some 11%N
  ∧ ∃ pre a0 a1,
      events (task jpeg_input) idle = pre ++ [CallbackCall a0 a1]
      ∧ callbacks pre = []
      ∧ persistent pre !! 0 = Some 11%N.
Proof.
  assert (B : Z.of_nat (length (@buffers_of rich jpeg_input)) ≤ 2 ^ 32) by (cbn; lia).
  split; [exact B|]. split; [reflexivity|].
  destruct (@pins_held_at_callback rich jpeg_input idle)
    as (pre & a0 & a1 & E & C & _ & _ & K).
  exists pre, a0, a1. split; [exact E|]. split; [exact C|].
  exact (K B 0%nat 11%N eq_refl).
Defined.

(** The handle of the sample task, computed: both buffers are in it after
    the last call of the task. *)
Example handle_after_task :
  persistent (events (task jpeg_input) idle) = <[1 := 12%N]> (<[0 := 11%N]> ∅)
  ∧ fetched (events (task jpeg_input) idle) = [0; 1].
Proof. vm_compute. split; reflexivity. Qed.

Lemma outcome_by_error_string_witness :
  @opened rich silent_input = inl {| message := "" |}
  ∧ what {| message := "" |} = ""
  ∧ callbacks (events (task silent_input) idle)
      = [(JsNull, JsObject (info_of (baton (final (task silent_input) idle))))].
Proof.
  split; [reflexivity|]. split; [reflexivity|].
  destruct (@outcome_by_error_string rich silent_input idle)
    as (_ & _ & _ & _ & _ & K).
  apply (K {| message := "" |}); reflexivity.
Defined.

End Examples.

(** * The further properties on sample tasks *)

Module MoreExamples.

Import Sample.

Example three_tasks_callbacks :
  callbacks (events (tasks [jpeg_input; missing_input; unknown_input]) idle)
    = [(JsNull, JsObject (info_of (baton (final (task jpeg_input) idle))));
       (JsError "Input file is missing", JsNull);
       (JsNull, JsObject (info_of (baton (final (tasks [jpeg_input; missing_input;
                                                        unknown_input]) idle))))].
Proof. vm_compute. reflexivity. Qed.

Lemma recognised_image_record_witness :
  @opened rich jpeg_input = inr (photo (Some bytes1) (Some bytes2), JPEG)
  ∧ JPEG ≠ @UNKNOWN rich
  ∧ ∃ info,
      callbacks (events (task jpeg_input) idle) = [(JsNull, JsObject info)]
      ∧ info !! "format" = Some (JsString "jpeg")
      ∧ info !! "width" = Some (JsUint32 640)
      ∧ info !! "space" = Some (JsString "srgb")
      ∧ info !! "density" = Some (JsUint32 72)
      ∧ info !! "orientation" = Some (JsUint32 6).
Proof.
  split; [reflexivity|]. split; [discriminate|].
  destruct (@recognised_image_record rich jpeg_input idle
              (photo (Some bytes1) (Some bytes2)) JPEG)
    as (info & C & Hf & Hw & _ & Hs & _ & _ & _ & Hd & Ho);
    [reflexivity|discriminate|].
  exists info. split; [exact C|]. split; [exact Hf|]. split; [exact Hw|].
  split; [exact Hs|]. split; [exact Hd|exact Ho].
Defined.

Lemma failure_delivered_whole_witness :
  let e := {| message := String "b" (String "a" (String "d" (String Ascii.zero "tail"))) |} in
  @opened rich cut_input = inl e
  ∧ what e = "bad"
  ∧ err (baton (final (task cut_input) idle)) = "bad"
  ∧ heap (final (task cut_input) idle) = heap idle
  ∧ callbacks (events (task cut_input) idle) = [(JsError "bad", JsNull)].
Proof.
  intros e. split; [reflexivity|]. split; [reflexivity|].
  destruct (@failure_delivered_whole rich cut_input idle e)
    as (_ & Hh & Eb & _ & _ & _ & C & _); [reflexivity|].
  split; [exact Eb|]. split; [exact Hh|]. apply C. discriminate.
Defined.

Lemma delivered_buffers_backed_witness :
  let f := final (task jpeg_input) idle in
  callbacks (events (task jpeg_input) idle) = [(JsNull, JsObject (info_of (baton f)))]
  ∧ info_of (baton f) !! "exif" = Some (JsBuffer (Some 8%N) 4%N)
  ∧ ∃ q bs, Some 8%N = Some q
            ∧ (q ∉ dom (heap idle))
            ∧ heap f !! q = Some (Some <$> bs)
            ∧ 4%N = N.of_nat (length bs)
            ∧ bs ≠ [].
Proof.
  intros f.
  assert (C : callbacks (events (task jpeg_input) idle)
              = [(JsNull, JsObject (info_of (baton f)))])
    by (vm_compute; reflexivity).
  assert (K : info_of (baton f) !! "exif" = Some (JsBuffer (Some 8%N) 4%N))
    by (vm_compute; reflexivity).
  split; [exact C|]. split; [exact K|].
  exact (@delivered_buffers_backed rich jpeg_input idle JsNull
           (info_of (baton f)) "exif" (Some 8%N) 4%N C K).
Defined.

Lemma allocated_blocks_delivered_witness :
  let f := final (task jpeg_input) idle in
  8%N ∈ dom (heap f)
  ∧ (8%N ∉ dom (heap idle))
  ∧ ∃ info k len,
      callbacks (events (task jpeg_input) idle) = [(JsNull, JsObject info)]
      ∧ info !! k = Some (JsBuffer (Some 8%N) len)
      ∧ (∀ k' len', info !! k' = Some (JsBuffer (Some 8%N) len') → k' = k).
Proof.
  intros f.
  assert (I : 8%N ∈ dom (heap f)).
  { apply elem_of_dom. vm_compute. eauto. }
  assert (O : 8%N ∉ dom (heap idle)).
  { apply not_elem_of_dom. vm_compute. reflexivity. }
  split; [exact I|]. split; [exact O|].
  destruct (@allocated_blocks_delivered rich jpeg_input idle) as (A & _ & _).
  exact (A 8%N I O).
Defined.

Lemma tasks_in_sequence_witness :
  - 2 ^ 31 ≤ counterQueue idle < 2 ^ 31
  ∧ length (callbacks (events (tasks [jpeg_input; missing_input; unknown_input]) idle))
      = 3%nat
  ∧ counterQueue (final (tasks [jpeg_input; missing_input; unknown_input]) idle)
      = counterQueue idle.
Proof.
  assert (R : - 2 ^ 31 ≤ counterQueue idle < 2 ^ 31) by (cbn; lia).
  split; [exact R|].
  destruct (@tasks_in_sequence rich [jpeg_input; missing_input; unknown_input] idle R)
    as (_ & _ & L & C & _).
  split; [exact L|exact C].
Defined.

Lemma anomalous_success_record_witness :
  (∃ img, @opened rich unknown_input = inr (img, @UNKNOWN rich))
  ∧ ∃ info,
      callbacks (events (task unknown_input) idle) = [(JsNull, JsObject info)]
      ∧ (∀ k, is_Some (info !! k) ↔ k ∈ always_keys)
      ∧ heap (final (task unknown_input) idle) = heap idle.
Proof.
  assert (A : ∃ img, @opened rich unknown_input = inr (img, @UNKNOWN rich)).
  { exists (photo None None). reflexivity. }
  split; [exact A|].
  apply (@anomalous_success_record rich unknown_input idle). left. exact A.
Defined.

End MoreExamples.
